(** * scriptsort: a shallow embedding of [scriptsort.c] and its properties

    The program lists one directory, buckets each entry by the number in
    an [ordered.<n>] prefix, sorts each bucket and prints either the
    names or the concatenated file contents.

    Conventions of the embedding:
    - a C [int] / [unsigned int] / [long] / [size_t] is a [Z] whose
      wrap-around is written out ([wrap_int], [to_uint], [wrap_size]);
      the data model is LP64 (32-bit [int], 64-bit [long] and [size_t]);
    - a C string is the [string] of its bytes before the terminator;
    - raw memory (the bundle buffer) is a list of cells, a cell being a
      byte or indeterminate;
    - the operating system (directory listing, files, allocator) is an
      explicit environment record, and every write to a stream is an
      event of a trace;
    - a loop that may not end takes fuel, and a run ends with an exit
      status, hangs, or faults on a memory access out of bounds;
    - libc's [qsort] is an insertion sort, which is libc's result
      whenever the comparator is a total order on the entries sorted;
    - the [sprintf] calls of list mode write to a buffer they also
      read, which C leaves undefined: what they leave is a parameter
      ([Libc]), and [main] and [run] are the program linked with a
      library that appends ([appending]).

    The file has three parts: the program, function by function; the
    vocabulary of the properties; the properties and their proofs. *)

From Stdlib Require Import ZArith List String Ascii Bool Lia.
From Stdlib Require Import Permutation Sorted.
From Stdlib Require DecimalString.
Import ListNotations.
Open Scope string_scope.
Open Scope Z_scope.

(* ================================================================== *)
(** ** Machine integers *)

Module Mach.

Definition INT_MAX : Z := 2147483647.
Definition INT_MIN : Z := -2147483648.
Definition UINT_MAX : Z := 4294967295.
Definition LONG_MAX : Z := 9223372036854775807.
Definition LONG_MIN : Z := -9223372036854775808.
Definition SIZE_MAX : Z := 18446744073709551615.

(** Result of an [int] operation, two's complement wrap-around. *)
Definition wrap_int (z : Z) : Z := (z + 2147483648) mod 4294967296 - 2147483648.

(** Conversion to [unsigned int]. *)
Definition to_uint (z : Z) : Z := z mod 4294967296.

(** Result of a [size_t] operation. *)
Definition wrap_size (z : Z) : Z := z mod 18446744073709551616.

End Mach.
Import Mach.

(* ================================================================== *)
(** ** C strings and <ctype.h>, <string.h>, <stdlib.h> *)

Module CStr.

(** A character as [unsigned char]. *)
Definition code (c : ascii) : Z := Z.of_N (N_of_ascii c).

Definition NUL : ascii := ascii_of_nat 0.
Definition LF : ascii := ascii_of_nat 10.
Definition SP : ascii := ascii_of_nat 32.

Definition chr (c : ascii) : string := String c EmptyString.

Definition strlen (s : string) : Z := Z.of_nat (String.length s).

(** [strcmp]: difference of the first pair of differing bytes, the
    terminator counting as 0.  Only its sign is specified by C. *)
Fixpoint strcmp (a b : string) : Z :=
  match a, b with
  | EmptyString, EmptyString => 0
  | EmptyString, String cb _ => 0 - code cb
  | String ca _, EmptyString => code ca
  | String ca a', String cb b' =>
      if code ca =? code cb then strcmp a' b' else code ca - code cb
  end.

(** [strncmp]: as [strcmp], over at most [n] bytes. *)
Fixpoint strncmp (a b : string) (n : nat) {struct n} : Z :=
  match n with
  | O => 0
  | S n' =>
      match a, b with
      | EmptyString, EmptyString => 0
      | EmptyString, String cb _ => 0 - code cb
      | String ca _, EmptyString => code ca
      | String ca a', String cb b' =>
          if code ca =? code cb then strncmp a' b' n' else code ca - code cb
      end
  end.

(** [s + n] for a pointer into a string at least [n] bytes long. *)
Fixpoint advance (n : nat) (s : string) : string :=
  match n, s with
  | O, _ => s
  | S n', String _ s' => advance n' s'
  | S _, EmptyString => EmptyString
  end.

(** First [n] bytes of [s]: what [strncpy (dst, s, n)] leaves in a
    zeroed destination of more than [n] bytes. *)
Fixpoint strncpy (s : string) (n : nat) : string :=
  match n, s with
  | S n', String c s' => String c (strncpy s' n')
  | _, _ => EmptyString
  end.

Definition isspace (c : ascii) : bool :=
  (code c =? 32) || ((9 <=? code c) && (code c <=? 13)).

Definition isdigit (c : ascii) : bool :=
  (48 <=? code c) && (code c <=? 57).

Definition digit_value (c : ascii) : Z := code c - 48.

Definition toupper (c : Z) : Z :=
  if (97 <=? c) && (c <=? 122) then c - 32 else c.

Definition tolower (c : Z) : Z :=
  if (65 <=? c) && (c <=? 90) then c + 32 else c.

(** *** strtol, base 10 *)

Fixpoint skip_spaces (s : string) : string :=
  match s with
  | String c s' => if isspace c then skip_spaces s' else s
  | EmptyString => s
  end.

(** Longest run of decimal digits at the head of [s]: its value
    (accumulated from [acc]), how many digits, and the rest. *)
Fixpoint scan_digits (s : string) (acc : Z) : Z * nat * string :=
  match s with
  | String c s' =>
      if isdigit c then
        let '(v, n, r) := scan_digits s' (acc * 10 + digit_value c) in (v, S n, r)
      else (acc, O, s)
  | EmptyString => (acc, O, s)
  end.

Definition clamp_long (z : Z) : Z :=
  if z >? LONG_MAX then LONG_MAX else if z <? LONG_MIN then LONG_MIN else z.

(** [strtol (s, &endptr, 10)]: the converted value and the part of
    [s] at [endptr].  When there are no digits nothing is converted:
    the value is 0 and [endptr] is [s] itself. *)
Definition strtol (s : string) : Z * string :=
  let t := skip_spaces s in
  let '(neg, u) :=
    match t with
    | String c t' =>
        if code c =? 45 then (true, t')
        else if code c =? 43 then (false, t')
        else (false, t)
    | EmptyString => (false, t)
    end in
  let '(v, n, r) := scan_digits u 0 in
  match n with
  | O => (0, s)
  | S _ => (clamp_long (if neg then - v else v), r)
  end.

(** Equality of two pointers into the same string: the same number
    of bytes remains before the terminator. *)
Definition same_ptr (p q : string) : bool :=
  Nat.eqb (String.length p) (String.length q).

(** [atoi (s)] is [(int) strtol (s, NULL, 10)]. *)
Definition atoi (s : string) : Z := wrap_int (fst (strtol s)).

End CStr.
Import CStr.

(* ================================================================== *)
(** ** scriptsort.c: data and pure helpers *)

Definition MAX_FILES : Z := 1000.
Definition MAX_FILENAME : Z := 256.
Definition INITIAL_BUFFER_SIZE : Z := 4096.
Definition PATH_MAX : Z := 4096.
Definition EXIT_SUCCESS : Z := 0.
Definition EXIT_FAILURE : Z := 1.

(** [FileEntry]; [order_num] is -1 for unordered files. *)
Record FileEntry := mkFileEntry {
  name : string;
  order_num : Z;
  bytesize : Z
}.

(** [extract_order_number]: the order number if found, -1 otherwise. *)
Definition extract_order_number (filename : string) : Z :=
  if negb (strncmp filename "ordered." 8 =? 0) then -1
  else
    let start := advance 8 filename in
    let '(num, endptr) := strtol start in
    if same_ptr endptr start || (num <? 0) || (num >? INT_MAX) then -1
    else wrap_int num.

(** [compare_ordered_files]: an [int] subtraction of the order numbers,
    then [strcmp] of the names. *)
Definition compare_ordered_files (fa fb : FileEntry) : Z :=
  if negb (order_num fa =? order_num fb)
  then wrap_int (order_num fa - order_num fb)
  else strcmp (name fa) (name fb).

(** [compare_unordered]: the same body. *)
Definition compare_unordered (fa fb : FileEntry) : Z :=
  if negb (order_num fa =? order_num fb)
  then wrap_int (order_num fa - order_num fb)
  else strcmp (name fa) (name fb).

(** [wal_stricmp]: case-insensitive comparison, result -1, 0 or 1.
    [fold_case] is [tolower (toupper (c))]; [verdict] is the final
    [(ca == cb) ? 0 : (ca < cb) ? -1 : 1]. *)
Definition fold_case (c : Z) : Z := tolower (toupper c).

Definition verdict (ca cb : Z) : Z :=
  if ca =? cb then 0 else if ca <? cb then -1 else 1.

Fixpoint wal_stricmp (a b : string) : Z :=
  match a, b with
  | EmptyString, EmptyString => 0
  | EmptyString, String cb _ => verdict (fold_case 0) (fold_case (code cb))
  | String ca _, EmptyString => verdict (fold_case (code ca)) (fold_case 0)
  | String ca a', String cb b' =>
      if (fold_case (code ca) =? fold_case (code cb))
         && negb (fold_case (code ca) =? 0)
      then wal_stricmp a' b'
      else verdict (fold_case (code ca)) (fold_case (code cb))
  end.

(** libc's [qsort] over the first [count] slots of an array, modelled
    as an insertion sort that places [x] before [y] when the comparator
    returns a value [<= 0].  Whenever the comparator is a total order on
    the elements every sorting algorithm returns this same list, and
    only then does this one stand for libc's: with a comparator that is
    not (an entry numbered -1 next to one numbered [INT_MAX], where the
    subtraction overflows) the two may differ.  Statements about the
    order of a run's output carry the hypothesis that rules this out. *)
Fixpoint qsort_insert (cmp : FileEntry -> FileEntry -> Z)
    (x : FileEntry) (l : list FileEntry) : list FileEntry :=
  match l with
  | [] => [x]
  | y :: l' => if cmp x y <=? 0 then x :: l else y :: qsort_insert cmp x l'
  end.

Definition qsort (cmp : FileEntry -> FileEntry -> Z)
    (l : list FileEntry) : list FileEntry :=
  fold_right (qsort_insert cmp) [] l.

(* ------------------------------------------------------------------ *)
(** *** The scan loop of [main] (lines 97-133) *)

Record Scan := mkScan {
  lower_files : list FileEntry;
  upper_files : list FileEntry;
  unordered_files : list FileEntry;
  total_bytesize : Z
}.

Definition scan_init : Scan := mkScan [] [] [] 0.

(** An entry the loop skips with [continue]. *)
Definition skipped (d_name : string) : bool :=
  (strcmp d_name "." =? 0) || (strcmp d_name ".." =? 0)
  || (strncmp d_name "skip." 5 =? 0).

Definition new_entry (d_name : string) : FileEntry :=
  let nm := strncpy d_name (Z.to_nat (MAX_FILENAME - 1)) in
  mkFileEntry nm (extract_order_number d_name) (strlen nm).

(** Where the entry goes.  [order_num] is an [int] and [cutoff_count]
    an [unsigned int], so both comparisons against the cutoff are made
    after converting [order_num] to [unsigned int]. *)
Inductive Bucket := Lower | Upper | Unordered.

Definition categorize (cutoff_count : Z) (order_num : Z) : Bucket :=
  if (order_num >=? 0) && (to_uint order_num <? cutoff_count) then Lower
  else if to_uint order_num >=? cutoff_count then Upper
  else Unordered.

(** [arr[count++] = e] guarded by [count < MAX_FILES]. *)
Definition push (arr : list FileEntry) (e : FileEntry) : list FileEntry :=
  if Z.of_nat (List.length arr) <? MAX_FILES then (arr ++ [e])%list else arr.

Definition scan_step (cutoff_count : Z) (st : Scan) (d_name : string) : Scan :=
  if skipped d_name then st
  else
    let e := new_entry d_name in
    let bytes := wrap_int (total_bytesize st + bytesize e + 2) in
    match categorize cutoff_count (order_num e) with
    | Lower =>
        mkScan (push (lower_files st) e) (upper_files st) (unordered_files st) bytes
    | Upper =>
        mkScan (lower_files st) (push (upper_files st) e) (unordered_files st) bytes
    | Unordered =>
        mkScan (lower_files st) (upper_files st) (push (unordered_files st) e) bytes
    end.

Definition scan (cutoff_count : Z) (entries : list string) : Scan :=
  fold_left (scan_step cutoff_count) entries scan_init.

(* ================================================================== *)
(** ** The outside world and the run monad *)

(** What [read_file_contents] meets at a path: [fopen] fails; [fopen]
    succeeds and [stat] fails; or the file opens, [stat] reports
    [st_size], and [fread] delivers the bytes of [data] (at most
    [st_size] of them).  [reason] is the text of [strerror (errno)]. *)
Inductive FileStatus :=
| CannotOpen (reason : string)
| CannotStat (reason : string)
| Opened (st_size : Z) (data : string) (reason : string).

(** [opendir] gives the reason of its failure or the names [readdir]
    yields, in the order it yields them.  [alloc_ok k n] tells whether
    the [k]-th allocation of the run, of [n] bytes, succeeds. *)
Record Env := mkEnv {
  opendir : string -> string + list string;
  lookup_file : string -> FileStatus;
  alloc_ok : nat -> Z -> bool
}.

Inductive Event :=
| Stdout (text : string)
| Stderr (text : string)
| OpenDir (path : string).

(** How a run ends: [main] returns a status, a loop never ends, or
    memory is accessed outside an allocation or before it is written. *)
Inductive Result :=
| Exit (status : Z)
| Hang
| Fault.

Record World := mkWorld {
  trace : list Event;
  allocs : nat
}.

Inductive Step (A : Type) :=
| Next (a : A) (w : World)
| Halt (r : Result) (w : World).
Arguments Next {A} a w.
Arguments Halt {A} r w.

Definition M (A : Type) : Type := World -> Step A.

Definition ret {A} (a : A) : M A := fun w => Next a w.

Definition bind {A B} (m : M A) (k : A -> M B) : M B :=
  fun w => match m w with
           | Next a w' => k a w'
           | Halt r w' => Halt r w'
           end.

Notation "x <- m ;; k" := (bind m (fun x => k))
  (at level 61, m at next level, right associativity).
Notation "m ;;; k" := (bind m (fun _ => k))
  (at level 61, right associativity).

Definition emit (e : Event) : M unit :=
  fun w => Next tt (mkWorld (trace w ++ [e])%list (allocs w)).

Definition halt {A} (r : Result) : M A := fun w => Halt r w.

(** [malloc], [calloc], [realloc]: success or a null pointer. *)
Definition allocate (env : Env) (size : Z) : M bool :=
  fun w => Next (alloc_ok env (allocs w) size) (mkWorld (trace w) (S (allocs w))).

(** A memory access that may be out of bounds. *)
Definition access {A} (o : option A) : M A :=
  match o with
  | Some a => ret a
  | None => halt Fault
  end.

Definition nl : string := chr LF.

(** [%d] and [%zu]. *)
Definition dec (z : Z) : string := DecimalString.NilZero.string_of_int (Z.to_int z).

(* ------------------------------------------------------------------ *)
(** *** Raw memory of the bundle buffer *)

Inductive cell :=
| Byte (c : ascii)
| Junk.

Definition bytes (s : string) : list cell := map Byte (list_ascii_of_string s).

Definition malloc_cells (n : Z) : list cell := repeat Junk (Z.to_nat n).

Definition realloc_cells (b : list cell) (n : Z) : list cell :=
  (firstn (Z.to_nat n) b ++ repeat Junk (Z.to_nat n - List.length b))%list.

(** [b[i..] = cs], inside the allocation. *)
Definition write_at (b : list cell) (i : Z) (cs : list cell) : option (list cell) :=
  if (0 <=? i) && (i + Z.of_nat (List.length cs) <=? Z.of_nat (List.length b))
  then Some (firstn (Z.to_nat i) b ++ cs
             ++ skipn (Z.to_nat i + List.length cs) b)%list
  else None.

(** Offset of the first terminator, reading initialised bytes only. *)
Fixpoint find_nul (cells : list cell) : option Z :=
  match cells with
  | Byte c :: r =>
      if code c =? 0 then Some 0
      else match find_nul r with Some k => Some (k + 1) | None => None end
  | Junk :: _ => None
  | [] => None
  end.

(** The C string held by a buffer whose content ends at its first
    zero byte. *)
Fixpoint c_str (s : string) : string :=
  match s with
  | String c s' => if code c =? 0 then EmptyString else String c (c_str s')
  | EmptyString => EmptyString
  end.

(** [strcat (b + off, src)]. *)
Definition strcat_at (b : list cell) (off : Z) (src : string) : option (list cell) :=
  if (0 <=? off) && (off <=? Z.of_nat (List.length b)) then
    match find_nul (skipn (Z.to_nat off) b) with
    | Some k => write_at b (off + k) (bytes (c_str src) ++ [Byte NUL])%list
    | None => None
    end
  else None.

(** The text [printf ("%s", b)] prints. *)
Fixpoint read_c_string (cells : list cell) : option string :=
  match cells with
  | Byte c :: r =>
      if code c =? 0 then Some EmptyString
      else match read_c_string r with
           | Some s => Some (String c s)
           | None => None
           end
  | Junk :: _ => None
  | [] => None
  end.

(* ------------------------------------------------------------------ *)
(** *** print_usage *)

(** [strrchr]: offset of the last occurrence of the byte [c]. *)
Fixpoint strrchr (s : string) (c : Z) : option nat :=
  match s with
  | EmptyString => None
  | String a s' =>
      match strrchr s' c with
      | Some i => Some (S i)
      | None => if code a =? c then Some O else None
      end
  end.

Definition find_last_path_separator (path : string) : option nat :=
  match strrchr path 47, strrchr path 92 with
  | None, last_backward => last_backward
  | last_forward, None => last_forward
  | Some f, Some b => Some (if (b <? f)%nat then f else b)
  end.

Definition ESC : string := chr (ascii_of_nat 27).

Definition usage_text (basename : string) : string :=
  "Usage: " ++ ESC ++ "[35;1m" ++ basename ++ ESC
    ++ "[22;39m <directory_path> [--init OR --bundle]" ++ nl
  ++ "where" ++ nl
  ++ "  " ++ ESC ++ "[33m<directory_path>" ++ ESC ++ "[39m - " ++ ESC
    ++ "[2mpath to scripts to order" ++ ESC ++ "[22m" ++ nl
  ++ "  " ++ ESC ++ "[34m--init" ++ ESC ++ "[39m - " ++ ESC
    ++ "[2mcreates a string that can be sourced" ++ ESC ++ "[22m" ++ nl
  ++ "  " ++ ESC ++ "[34m--bundle" ++ ESC ++ "[39m - " ++ ESC
    ++ "[2mconcatenates all scripts to single string" ++ ESC ++ "[22m" ++ nl ++ nl
  ++ "Given a directory structure like the following, anything not" ++ nl
  ++ "prefixed with 'ordered.', followed by a number, will be" ++ nl
  ++ "executed in a specific order." ++ nl ++ nl
  ++ "The order is" ++ nl
  ++ "  1. ordered.(0-49).(anything)" ++ nl
  ++ "  2. " ++ ESC ++ "[3m(files not prefixed with ordered)" ++ ESC ++ "[23m" ++ nl
  ++ "  3. ordered.(50+).(anything)" ++ nl ++ nl
  ++ "So in a directory with 'ordered.01.first','fn.a','fn.b', and 'ordered.52.last'" ++ nl
  ++ "the files scriptsort will print:" ++ nl
  ++ "  ordered.01.first" ++ nl
  ++ "  fn.a" ++ nl
  ++ "  fn.b" ++ nl
  ++ "  ordered.52.last" ++ nl ++ nl
  ++ "To make this simpler, simply add this to the bottom of your startup script" ++ nl
  ++ "  source <(scriptsort /path/to/dir --init)" ++ nl ++ nl.

Definition print_usage (program_name : string) : M unit :=
  let basename :=
    match find_last_path_separator program_name with
    | Some last_sep => advance (S last_sep) program_name
    | None => program_name
    end in
  emit (Stderr (usage_text basename)).

(* ------------------------------------------------------------------ *)
(** *** The argument loop of [main] (lines 52-82) *)

Record Options := mkOptions {
  cutoff_count : Z;
  init : bool;
  bundle : bool;
  debugtext : bool
}.

Definition default_options : Options := mkOptions 50 false false false.

(** [for (i = 2; i < argc; i++)] over [argv[2..]]; [i + 1 < argc] is
    [rest] not being empty, and [argv[++i]] is its head. *)
Fixpoint parse_flags (args : list string) (o : Options) : M Options :=
  match args with
  | [] => ret o
  | a :: rest =>
      if wal_stricmp a "--init" =? 0 then
        parse_flags rest (mkOptions (cutoff_count o) true (bundle o) (debugtext o))
      else if wal_stricmp a "--bundle" =? 0 then
        parse_flags rest (mkOptions (cutoff_count o) (init o) true (debugtext o))
      else if wal_stricmp a "--debug" =? 0 then
        parse_flags rest (mkOptions (cutoff_count o) (init o) (bundle o) true)
      else
        match rest with
        | value :: rest' =>
            if wal_stricmp a "--cutoff" =? 0 then
              let count := atoi value in
              if count <=? 0 then
                emit (Stdout ("The cutoff number defaults to 50, but must be a number" ++ nl)) ;;;
                emit (Stdout ("that is greater than 0 in number." ++ nl)) ;;;
                halt (Exit 1)
              else
                parse_flags rest' (mkOptions (to_uint count) (init o) (bundle o) (debugtext o))
            else parse_flags rest o
        | [] => parse_flags rest o
        end
  end.

(* ------------------------------------------------------------------ *)
(** *** read_file_contents and ensure_buffer_capacity *)

(** [snprintf (filepath, PATH_MAX, "%s/%s", directory, filename)]. *)
Definition file_path (directory filename : string) : string :=
  substring 0 (Z.to_nat (PATH_MAX - 1)) (directory ++ "/" ++ filename).

(** The bytes read, or [None] for the null pointer. *)
Definition read_file_contents (env : Env) (directory filename : string)
  : M (option string) :=
  let filepath := file_path directory filename in
  match lookup_file env filepath with
  | CannotOpen reason =>
      emit (Stderr ("Error opening file '" ++ filepath ++ "': " ++ reason ++ nl)) ;;;
      ret None
  | CannotStat reason =>
      emit (Stderr ("Error getting file size for '" ++ filepath ++ "': "
                    ++ reason ++ nl)) ;;;
      ret None
  | Opened st_size data reason =>
      ok <- allocate env (wrap_size (st_size + 1)) ;;
      if negb ok then
        emit (Stderr ("Error allocating memory for file '" ++ filepath ++ "'" ++ nl)) ;;;
        ret None
      else
        let contents := substring 0 (Z.to_nat st_size) data in
        let bytes_read := strlen contents in
        if negb (bytes_read =? wrap_size st_size) then
          emit (Stderr ("Error reading file '" ++ filepath ++ "': " ++ reason ++ nl)) ;;;
          ret None
        else ret (Some contents)
  end.

(** [while (new_capacity < needed_size) new_capacity *= 2;] in
    [size_t] arithmetic; [None] when [fuel] iterations do not end it. *)
Fixpoint grow_capacity (fuel : nat) (new_capacity needed_size : Z) : option Z :=
  if new_capacity <? needed_size then
    match fuel with
    | O => None
    | S fuel' => grow_capacity fuel' (wrap_size (new_capacity * 2)) needed_size
    end
  else Some new_capacity.

(** Returns the buffer ([None] for the null pointer) and the value
    left in [*current_capacity]. *)
Definition ensure_buffer_capacity (fuel : nat) (env : Env)
    (buffer : list cell) (current_capacity needed_size : Z)
  : M (option (list cell) * Z) :=
  if needed_size >? current_capacity then
    match grow_capacity fuel current_capacity needed_size with
    | None => halt Hang
    | Some new_capacity =>
        ok <- allocate env new_capacity ;;
        if negb ok then
          emit (Stderr ("Failed to reallocate buffer to size "
                        ++ dec new_capacity ++ nl)) ;;;
          ret (None, current_capacity)
        else ret (Some (realloc_cells buffer new_capacity), new_capacity)
    end
  else ret (Some buffer, current_capacity).

(* ------------------------------------------------------------------ *)
(** *** Bundle mode (lines 141-222) *)

Record Assembly := mkAssembly {
  buffer : list cell;
  buffer_capacity : Z;
  current_size : Z
}.

(** The body the three [for] loops share once a file has been read:
    make room, [strcat], then the newline and the terminator. *)
Definition append_contents (fuel : nat) (env : Env) (a : Assembly)
    (file_contents : string) : M Assembly :=
  let file_size := strlen file_contents in
  grown <- ensure_buffer_capacity fuel env (buffer a) (buffer_capacity a)
             (wrap_size (current_size a + file_size + 2)) ;;
  match grown with
  | (None, _) => halt (Exit EXIT_FAILURE)
  | (Some buf, capacity) =>
      buf <- access (strcat_at buf (current_size a) file_contents) ;;
      let size := wrap_size (current_size a + file_size) in
      buf <- access (write_at buf size [Byte LF]) ;;
      let size := wrap_size (size + 1) in
      buf <- access (write_at buf size [Byte NUL]) ;;
      ret (mkAssembly buf capacity size)
  end.

(** One of the three [for] loops over a sorted array. *)
Fixpoint bundle_files (fuel : nat) (env : Env) (directory : string)
    (files : list FileEntry) (a : Assembly) : M Assembly :=
  match files with
  | [] => ret a
  | f :: rest =>
      r <- read_file_contents env directory (name f) ;;
      match r with
      | None => bundle_files fuel env directory rest a
      | Some file_contents =>
          a <- append_contents fuel env a file_contents ;;
          bundle_files fuel env directory rest a
      end
  end.

Definition timer_text : string :=
  "$(command 2>&1 >/dev/null -v ms && ms || printf '0')".

Definition bundle_mode (fuel : nat) (env : Env) (directory : string)
    (o : Options) (lower unordered upper : list FileEntry) : M Z :=
  ok <- allocate env INITIAL_BUFFER_SIZE ;;
  if negb ok then
    emit (Stderr ("Failed to allocate initial buffer" ++ nl)) ;;;
    halt (Exit EXIT_FAILURE)
  else
    buf <- access (write_at (malloc_cells INITIAL_BUFFER_SIZE) 0 [Byte NUL]) ;;
    a <- bundle_files fuel env directory lower (mkAssembly buf INITIAL_BUFFER_SIZE 0) ;;
    a <- bundle_files fuel env directory unordered a ;;
    a <- bundle_files fuel env directory upper a ;;
    (if debugtext o
     then emit (Stdout ("local start_time=" ++ timer_text ++ nl))
     else ret tt) ;;;
    text <- access (read_c_string (buffer a)) ;;
    emit (Stdout (text ++ nl)) ;;;
    (if debugtext o
     then emit (Stdout ("local end_time=" ++ timer_text ++ nl)) ;;;
          emit (Stdout ("export SCRIPTSORT_ELAPSED=$(($end_time - $start_time))" ++ nl))
     else ret tt) ;;;
    ret EXIT_SUCCESS.

(* ------------------------------------------------------------------ *)
(** *** List and init mode (lines 223-303) *)

(** The generated script is written here with a backquote wherever the
    program's text has a double quote; [dq] puts the quotes back. *)
Fixpoint dq (s : string) : string :=
  match s with
  | String c s' => String (if code c =? 96 then ascii_of_nat 34 else c) (dq s')
  | EmptyString => EmptyString
  end.

Definition lines (l : list string) : string :=
  fold_right (fun x acc => dq x ++ nl ++ acc) "" l.

Definition init_script (names timer debugStart debugEnd directory : string) : string :=
  lines [
    "pjoin() {";
    "  local -a parts";
    "";
    "  if [[ `${#}` -lt 1 ]]; then";
    "    printf `\x1b[1;35mpjoin\x1b[22;39m <path> <part> ...\n\n`";
    "    printf `Example:\n`";
    "    printf `  pjoin \$HOME .zshrc\n`";
    "    printf `  \x1b[3m/Users/${USER}/.zshrc\x1b[33m\n`";
    "    return 0";
    "  fi";
    "";
    "  for part in `${@}`; do";
    "    parts+=( `${part}` `/` )";
    "  done";
    "";
    "  printf `$(realpath $(printf `${parts// /}`))`";
    "}";
    "";
    "includeScripts() {";
    "  local -a scripts";
    "  local -a timings";
    "  local directory=`${1:-${HOME}/.zsh.scripts}`";
    "  local scriptpath=``";
    "  local timer";
    "  local now";
    "  local elapsed";
    "" ]
  ++ "  scripts=( " ++ names ++ " )" ++ nl
  ++ lines [ "  for script in `${scripts[@]}`; do" ]
  ++ "    timer=" ++ timer ++ nl
  ++ lines [ "    scriptpath=$(pjoin `${directory}` `${script}`)" ]
  ++ debugStart
  ++ lines [ "    source `${scriptpath}`";
             "    if [ $timer ]; then" ]
  ++ "      now=" ++ timer ++ nl
  ++ lines [ "      elapsed=$(($now-$timer))";
             "";
             "      timings+=( `${elapsed}ms:${scriptpath}` )";
             "    fi" ]
  ++ debugEnd
  ++ lines [ "  done"; "}"; "" ]
  ++ dq "includeScripts `" ++ directory ++ dq "`" ++ nl
  ++ lines [ "unset -f includeScripts" ].

(** [sprintf (buffer, "%s%s%c", buffer, name, joiner)] (lines 235, 239
    and 243): the destination is also the first source.  C leaves such
    a call undefined (C11 7.21.6.6p2), so what it leaves in the buffer
    is the doing of the C library the program is linked with, not of
    the program: a [Libc] says what that is. *)
Record Libc := mkLibc {
  sprintf_self : string -> string -> ascii -> string
}.

(** glibc's [sprintf]: the old contents are copied onto themselves and
    the name and the joiner follow them. *)
Definition appending : Libc :=
  mkLibc (fun buffer name joiner => buffer ++ name ++ chr joiner).

(** glibc's checked [sprintf], the one a build with [_FORTIFY_SOURCE]
    calls: the destination is emptied before the sources are read. *)
Definition clearing : Libc :=
  mkLibc (fun _ name joiner => name ++ chr joiner).

(** One of the three [for] loops of that call. *)
Definition sprintf_names (lib : Libc) (joiner : ascii) (files : list FileEntry)
    (buffer : string) : string :=
  fold_left (fun buf f => sprintf_self lib buf (name f) joiner) files buffer.

(** The loop under [appending]: each name and the joiner are appended
    to the string the buffer holds. *)
Definition append_names (joiner : ascii) (files : list FileEntry) (buffer : string) : string :=
  fold_left (fun buf f => buf ++ name f ++ chr joiner) files buffer.

(** [debugStart] and [debugEnd]. *)
Definition debug_start (debugtext : bool) : string :=
  if debugtext
  then dq "    printf `Sourcing \`${scriptpath}\`...`" ++ nl
  else nl.

Definition debug_end (debugtext : bool) : string :=
  if debugtext then dq "    printf `done\n`" ++ nl else "".

(** What is printed for the list the buffer holds. *)
Definition list_stdout (o : Options) (directory buf : string) : string :=
  if init o
  then init_script buf timer_text (debug_start (debugtext o))
         (debug_end (debugtext o)) directory
  else buf.

Definition list_mode_with (lib : Libc) (env : Env) (directory : string) (o : Options)
    (total : Z) (lower unordered upper : list FileEntry) : M Z :=
  ok <- allocate env (wrap_size total) ;;
  if negb ok then
    emit (Stderr ("Cannot allocate buffer of " ++ dec total ++ " byte(s)" ++ nl)) ;;;
    halt (Exit EXIT_FAILURE)
  else
    let joiner := if init o then SP else LF in
    let buf := sprintf_names lib joiner lower "" in
    let buf := sprintf_names lib joiner unordered buf in
    let buf := sprintf_names lib joiner upper buf in
    emit (Stdout (list_stdout o directory buf)) ;;;
    ret EXIT_SUCCESS.

(** List mode as built against a library that appends. *)
Definition list_mode (env : Env) (directory : string) (o : Options)
    (total : Z) (lower unordered upper : list FileEntry) : M Z :=
  list_mode_with appending env directory o total lower unordered upper.

(* ------------------------------------------------------------------ *)
(** *** main *)

Definition main_with (lib : Libc) (fuel : nat) (env : Env) (program_name : string)
    (args : list string) : M Z :=
  match args with
  | [] => print_usage program_name ;;; halt (Exit EXIT_FAILURE)
  | directory :: flags =>
      o <- parse_flags flags default_options ;;
      emit (OpenDir directory) ;;;
      match opendir env directory with
      | inl reason =>
          emit (Stderr ("Error opening directory '" ++ directory ++ "': "
                        ++ reason ++ nl)) ;;;
          halt (Exit EXIT_FAILURE)
      | inr entries =>
          let st := scan (cutoff_count o) entries in
          let lower := qsort compare_ordered_files (lower_files st) in
          let upper := qsort compare_ordered_files (upper_files st) in
          let unordered := qsort compare_unordered (unordered_files st) in
          if bundle o
          then bundle_mode fuel env directory o lower unordered upper
          else list_mode_with lib env directory o (total_bytesize st)
                 lower unordered upper
      end
  end.

(** The program as built against a library that appends: only list
    mode depends on the choice. *)
Definition main (fuel : nat) (env : Env) (program_name : string)
    (args : list string) : M Z :=
  main_with appending fuel env program_name args.

(** A whole run: what was written and how it ended. *)
Definition run_with (lib : Libc) (fuel : nat) (env : Env) (program_name : string)
    (args : list string) : list Event * Result :=
  match main_with lib fuel env program_name args (mkWorld [] 0) with
  | Next status w => (trace w, Exit status)
  | Halt r w => (trace w, r)
  end.

Definition run (fuel : nat) (env : Env) (program_name : string)
    (args : list string) : list Event * Result :=
  match main fuel env program_name args (mkWorld [] 0) with
  | Next status w => (trace w, Exit status)
  | Halt r w => (trace w, r)
  end.

Definition stdout_of (t : list Event) : string :=
  fold_right (fun e acc => match e with Stdout s => s ++ acc | _ => acc end) "" t.

Definition stderr_of (t : list Event) : string :=
  fold_right (fun e acc => match e with Stderr s => s ++ acc | _ => acc end) "" t.

Definition scanned (t : list Event) : bool :=
  existsb (fun e => match e with OpenDir _ => true | _ => false end) t.

(* ================================================================== *)
(** * Vocabulary of the properties

    Predicates, reference functions and sample environments the
    statements below are written with. *)

(** ** Strings and numerals *)

(** A string that can be held as a C string: no zero byte inside. *)
Fixpoint no_nul (s : string) : bool :=
  match s with
  | String c s' => negb (code c =? 0) && no_nul s'
  | EmptyString => true
  end.

(** The first byte of [s] satisfies [p]. *)
Definition starts_with (p : ascii -> bool) (s : string) : bool :=
  match s with
  | String c _ => p c
  | EmptyString => false
  end.

(** Every byte of [s] satisfies [p]. *)
Fixpoint all_chars (p : ascii -> bool) (s : string) : bool :=
  match s with
  | String c s' => p c && all_chars p s'
  | EmptyString => true
  end.

(** The byte [j] does not occur in [s]. *)
Definition free_of (j : ascii) (s : string) : bool :=
  all_chars (fun c => negb (code c =? code j)) s.

Definition no_digit (s : string) : bool :=
  all_chars (fun c => negb (isdigit c)) s.

(** The integer a string of decimal digits denotes, by positions. *)
Fixpoint decimal_value (ds : string) : Z :=
  match ds with
  | String c r => digit_value c * 10 ^ Z.of_nat (String.length r) + decimal_value r
  | EmptyString => 0
  end.

Definition is_sign (c : ascii) : bool := (code c =? 45) || (code c =? 43).

(** A numeral at the head of [s]: a digit, or a sign and a digit. *)
Definition numeral_head (s : string) : bool :=
  match s with
  | String c s' => isdigit c || (is_sign c && starts_with isdigit s')
  | EmptyString => false
  end.

Definition is_minus (sgn : string) : bool := String.eqb sgn "-".

(** ** Names, partitions and orders *)

(** A name as [readdir] gives it: a C string of at most 255 bytes. *)
Definition dirent_name (d : string) : Prop :=
  no_nul d = true /\ (String.length d <= 255)%nat.

(** The entries the scan does not skip. *)
Definition non_skipped (entries : list string) : list string :=
  filter (fun d => negb (skipped d)) entries.

(** The three kinds of names, by order number and cutoff [c]. *)
Definition is_low (c : Z) (d : string) : bool :=
  (0 <=? extract_order_number d) && (extract_order_number d <? c).

Definition is_high (c : Z) (d : string) : bool := c <=? extract_order_number d.

Definition is_unordered (d : string) : bool := extract_order_number d =? -1.

Definition bucket_eqb (a b : Bucket) : bool :=
  match a, b with
  | Lower, Lower | Upper, Upper | Unordered, Unordered => true
  | _, _ => false
  end.

(** The entry [d_name] is routed to the array [b]. *)
Definition routed (c : Z) (b : Bucket) (d_name : string) : bool :=
  negb (skipped d_name) && bucket_eqb (categorize c (extract_order_number d_name)) b.

Definition array_of (b : Bucket) (st : Scan) : list FileEntry :=
  match b with
  | Lower => lower_files st
  | Upper => upper_files st
  | Unordered => unordered_files st
  end.

(** [MAX_FILES] as a length. *)
Definition max_files : nat := Z.to_nat MAX_FILES.

(** An entry as the scan builds it from its own name. *)
Definition faithful (e : FileEntry) : Prop :=
  order_num e = extract_order_number (name e)
  /\ bytesize e = strlen (name e)
  /\ no_nul (name e) = true.

(** The order both comparators are written to decide: order number
    first, then name. *)
Definition key_le (a b : FileEntry) : Prop :=
  order_num a < order_num b
  \/ (order_num a = order_num b /\ strcmp (name a) (name b) <= 0).

(** An entry whose order number lies in [lo .. hi] and whose name is
    a C string. *)
Definition within (lo hi : Z) (e : FileEntry) : Prop :=
  lo <= order_num e <= hi /\ no_nul (name e) = true.

(** On names: ascending by number, then by name byte-wise. *)
Definition name_le (a b : string) : Prop :=
  extract_order_number a < extract_order_number b
  \/ (extract_order_number a = extract_order_number b /\ String.leb a b = true).

(** The entries in the order the three loops of either mode go through
    the sorted arrays: lower, unordered, upper. *)
Definition output_order (c : Z) (entries : list string) : list FileEntry :=
  (qsort compare_ordered_files (lower_files (scan c entries))
   ++ qsort compare_unordered (unordered_files (scan c entries))
   ++ qsort compare_ordered_files (upper_files (scan c entries)))%list.

(** ** Arguments *)

(** A string as [wal_stricmp] sees it. *)
Definition folded (s : string) : list Z :=
  map (fun c => fold_case (code c)) (list_ascii_of_string s).

Definition is_init a := wal_stricmp a "--init" =? 0.
Definition is_bundle a := wal_stricmp a "--bundle" =? 0.
Definition is_debug a := wal_stricmp a "--debug" =? 0.
Definition is_cutoff a := wal_stricmp a "--cutoff" =? 0.

(** The argument matches one of the four flags. *)
Definition known_flag (a : string) : bool :=
  is_init a || is_bundle a || is_debug a || is_cutoff a.

(** [cutoff_count = count]. *)
Definition set_cutoff (o : Options) (count : Z) : Options :=
  mkOptions (to_uint count) (init o) (bundle o) (debugtext o).

(** The two lines written for a cutoff that is not positive. *)
Definition cutoff_error : list Event :=
  [Stdout ("The cutoff number defaults to 50, but must be a number" ++ nl);
   Stdout ("that is greater than 0 in number." ++ nl)].

Definition reject_cutoff : M Options :=
  fun w => Halt (Exit 1) (mkWorld (trace w ++ cutoff_error)%list (allocs w)).

(** The loop, having walked [pre], stands exactly at its end: no
    [--cutoff] at the end of [pre] is left waiting for its value. *)
Fixpoint flag_boundary (pre : list string) : bool :=
  match pre with
  | [] => true
  | a :: rest =>
      if is_cutoff a then
        match rest with
        | [] => false
        | _ :: rest' => flag_boundary rest'
        end
      else flag_boundary rest
  end.

(** ** Output *)

(** Each name followed by the joiner. *)
Fixpoint concat_names (j : ascii) (names : list string) : string :=
  match names with
  | [] => ""
  | n :: rest => n ++ chr j ++ concat_names j rest
  end.

(** The fields of [s], each ended by the byte [j]; a last field without
    its [j] counts when it is not empty. *)
Fixpoint split_from (j : ascii) (s : string) (field : string) : list string :=
  match s with
  | EmptyString => match field with EmptyString => [] | _ => [field] end
  | String c s' =>
      if code c =? code j then field :: split_from j s' ""
      else split_from j s' (field ++ chr c)
  end.

Definition split_on (j : ascii) (s : string) : list string := split_from j s "".



(** The world after one more event, and after one more allocation. *)
Definition log (w : World) (e : Event) : World :=
  mkWorld (trace w ++ [e])%list (allocs w).

Definition allocated (w : World) : World := mkWorld (trace w) (S (allocs w)).

(** ** Files and the bundle buffer *)

(** 2^63, the largest power of two a [size_t] holds. *)
Definition HALF_SIZE : Z := 9223372036854775808.

(** File sizes are sizes: what [stat] reports is a non-negative [off_t]. *)
Definition sizes_ok (env : Env) : Prop :=
  forall path st_size data reason,
    lookup_file env path = Opened st_size data reason -> 0 <= st_size <= LONG_MAX.

(** The contents of a readable file: it opens, [stat] succeeds and
    [fread] delivers all [st_size] bytes. *)
Definition file_contents (env : Env) (path : string) : option string :=
  match lookup_file env path with
  | Opened st_size data _ =>
      if st_size <=? strlen data
      then Some (substring 0 (Z.to_nat st_size) data)
      else None
  | _ => None
  end.



(** ** Sample directories *)

(** The directory of the usage text. *)
Definition usage_example : list string :=
  ["ordered.01.first"; "fn.a"; "fn.b"; "ordered.52.last"].

(** That directory as [readdir] might yield it, two-byte files, and
    memory to spare. *)
Definition quiet_env : Env :=
  mkEnv (fun _ => inr ["."; ".."; "fn.b"; "ordered.52.last"; "ordered.01.first"; "fn.a"])
        (fun _ => Opened 2 "hi" "")
        (fun _ _ => true).

(** The same directory where [fn.b] does not open and
    [ordered.52.last] is cut short while it is read. *)
Definition partly_readable_env : Env :=
  mkEnv (fun _ => inr ["."; ".."; "fn.b"; "ordered.52.last"; "ordered.01.first"; "fn.a"])
        (fun path =>
           if String.eqb path "d/fn.b" then CannotOpen "Permission denied"
           else if String.eqb path "d/ordered.52.last" then Opened 5 "hi" "Input/output error"
           else Opened 2 "hi" "")
        (fun _ _ => true).

(** An allocator that has nothing to give. *)
Definition exhausted_env : Env :=
  mkEnv (fun _ => inr ["fn.a"]) (fun _ => Opened 2 "hi" "") (fun _ _ => false).



(** A directory with one file whose name holds a line feed, and one
    with a file whose name holds a space. *)
Definition line_feed_name : string := "a" ++ nl ++ "b".

Definition odd_names_env : Env :=
  mkEnv (fun d => if String.eqb d "lf" then inr ["."; ".."; line_feed_name]
                  else inr ["."; ".."; "my script"])
        (fun _ => Opened 2 "hi" "")
        (fun _ _ => true).



(** ** Letter case *)

(** A byte with the upper-case ASCII letters mapped to lower case. *)
Definition lower (c : ascii) : ascii :=
  if (65 <=? code c) && (code c <=? 90)
  then ascii_of_N (N_of_ascii c + 32) else c.

Fixpoint lower_case (s : string) : string :=
  match s with
  | String c s' => String (lower c) (lower_case s')
  | EmptyString => EmptyString
  end.

(** ** Runs and options *)

(** The outcome of a step with its value mapped. *)
Definition step_map {A B : Type} (f : A -> B) (s : Step A) : Step B :=
  match s with
  | Next a w => Next (f a) w
  | Halt r w => Halt r w
  end.

(** The options with some of the three switches turned on as well. *)
Definition with_flags (i b g : bool) (o : Options) : Options :=
  mkOptions (cutoff_count o) (init o || i) (bundle o || b) (debugtext o || g).

(** A directory that cannot be opened. *)
Definition missing_env : Env :=
  mkEnv (fun _ => inl "No such file or directory")
        (fun _ => CannotOpen "No such file or directory")
        (fun _ _ => true).

(** [main] from [opendir] on, with the options the argument loop left. *)
Definition after_flags (fuel : nat) (env : Env) (directory : string)
    (o : Options) : M Z :=
  emit (OpenDir directory) ;;;
  match opendir env directory with
  | inl reason =>
      emit (Stderr ("Error opening directory '" ++ directory ++ "': "
                    ++ reason ++ nl)) ;;;
      halt (Exit EXIT_FAILURE)
  | inr entries =>
      let st := scan (cutoff_count o) entries in
      let lower := qsort compare_ordered_files (lower_files st) in
      let upper := qsort compare_ordered_files (upper_files st) in
      let unordered := qsort compare_unordered (unordered_files st) in
      if bundle o
      then bundle_mode fuel env directory o lower unordered upper
      else list_mode env directory o (total_bytesize st) lower unordered upper
  end.

(** ** Sizes *)

(** The bytes the scan counts for a list of entries: for each one the
    length of its name and two more. *)
Definition room (files : list FileEntry) : Z :=
  fold_right (fun e acc => strlen (name e) + 2 + acc) 0 files.

Definition footprint (names : list string) : Z := room (map new_entry names).

(** ** The bundle buffer as a C string *)


(** A step that leaves standard output as it was and, when it ends the
    run, ends it with a failure. *)
Definition quiet {A : Type} (w : World) (s : Step A) : Prop :=
  match s with
  | Next _ w' => stdout_of (trace w') = stdout_of (trace w)
  | Halt r w' =>
      stdout_of (trace w') = stdout_of (trace w)
      /\ (r = Exit EXIT_FAILURE \/ r = Hang \/ r = Fault)
  end.

(** One of the two modes: it returns success, or ends the run with a
    failure; when the status is that of a failure, standard output is
    as it was. *)
Definition all_or_nothing (w : World) (s : Step Z) : Prop :=
  match s with
  | Next status _ => status = EXIT_SUCCESS
  | Halt r w' =>
      (r = Exit EXIT_FAILURE \/ r = Hang \/ r = Fault)
      /\ (r = Exit EXIT_FAILURE -> stdout_of (trace w') = stdout_of (trace w))
  end.

(** ** The bundle by names *)



(* ================================================================== *)
(** * Properties *)

(** ** Machine integers and bytes *)

Lemma wrap_int_id z : INT_MIN <= z <= INT_MAX -> wrap_int z = z.
Proof.
  unfold wrap_int, INT_MIN, INT_MAX. intros H.
  rewrite Z.mod_small by lia. lia.
Qed.

Lemma wrap_int_range z : INT_MIN <= wrap_int z <= INT_MAX.
Proof.
  unfold wrap_int, INT_MIN, INT_MAX.
  pose proof (Z.mod_pos_bound (z + 2147483648) 4294967296 ltac:(lia)). lia.
Qed.

Lemma to_uint_id z : 0 <= z <= UINT_MAX -> to_uint z = z.
Proof. unfold to_uint, UINT_MAX. intros H. apply Z.mod_small. lia. Qed.

Lemma to_uint_neg z : INT_MIN <= z < 0 -> to_uint z = z + 4294967296.
Proof.
  unfold to_uint, INT_MIN. intros H.
  replace z with ((z + 4294967296) + (-1) * 4294967296) at 1 by lia.
  rewrite Z.mod_add by lia. apply Z.mod_small. lia.
Qed.

Lemma wrap_size_id z : 0 <= z <= SIZE_MAX -> wrap_size z = z.
Proof. unfold wrap_size, SIZE_MAX. intros H. apply Z.mod_small. lia. Qed.

Lemma code_range c : 0 <= code c <= 255.
Proof.
  unfold code. pose proof (N_ascii_bounded c) as H.
  split; [apply N2Z.is_nonneg|]. lia.
Qed.

Lemma code_inj a b : code a = code b -> a = b.
Proof.
  unfold code. intros H. apply N2Z.inj in H.
  rewrite <- (ascii_N_embedding a), <- (ascii_N_embedding b). now rewrite H.
Qed.

(** ** Strings *)

Lemma strcmp_refl a : strcmp a a = 0.
Proof. induction a as [|c a IH]; simpl; [reflexivity|]. now rewrite Z.eqb_refl. Qed.

Lemma strcmp_opp a b : strcmp b a = - strcmp a b.
Proof.
  revert b. induction a as [|ca a IH]; intros [|cb b]; simpl; try lia.
  rewrite (Z.eqb_sym (code cb) (code ca)).
  destruct (code ca =? code cb); [apply IH | lia].
Qed.

Lemma strcmp_eq a b : no_nul a = true -> no_nul b = true -> strcmp a b = 0 -> a = b.
Proof.
  revert b. induction a as [|ca a IH]; intros [|cb b]; simpl; intros Ha Hb H.
  - reflexivity.
  - apply andb_prop in Hb as [Hb _]. apply negb_true_iff, Z.eqb_neq in Hb. lia.
  - apply andb_prop in Ha as [Ha _]. apply negb_true_iff, Z.eqb_neq in Ha. lia.
  - apply andb_prop in Ha as [_ Ha]. apply andb_prop in Hb as [_ Hb].
    destruct (code ca =? code cb) eqn:E.
    + apply Z.eqb_eq, code_inj in E. subst cb. f_equal. now apply IH.
    + apply Z.eqb_neq in E. lia.
Qed.

Lemma strcmp_trans a b c :
  no_nul a = true -> no_nul b = true -> no_nul c = true ->
  strcmp a b <= 0 -> strcmp b c <= 0 -> strcmp a c <= 0.
Proof.
  revert b c. induction a as [|ca a IH]; intros [|cb b] [|cc c]; simpl;
    intros Ha Hb Hc H1 H2; try lia.
  - pose proof (code_range cc). lia.
  - apply andb_prop in Ha as [Ha _]. apply negb_true_iff, Z.eqb_neq in Ha.
    pose proof (code_range ca). lia.
  - apply andb_prop in Hb as [Hb _]. apply negb_true_iff, Z.eqb_neq in Hb.
    pose proof (code_range cb). lia.
  - apply andb_prop in Ha as [_ Ha]. apply andb_prop in Hb as [_ Hb].
    apply andb_prop in Hc as [_ Hc].
    destruct (code ca =? code cb) eqn:E1; destruct (code cb =? code cc) eqn:E2;
      destruct (code ca =? code cc) eqn:E3;
      repeat match goal with
             | H : (_ =? _) = true |- _ => apply Z.eqb_eq in H
             | H : (_ =? _) = false |- _ => apply Z.eqb_neq in H
             end; try lia.
    now apply (IH b c).
Qed.

Lemma ascii_compare_code a b : Ascii.compare a b = (code a ?= code b).
Proof. unfold Ascii.compare, code. now rewrite N2Z.inj_compare. Qed.

(** The sign of [strcmp] is the byte-wise lexicographic comparison. *)
Lemma strcmp_compare a b :
  no_nul a = true -> no_nul b = true ->
  (strcmp a b ?= 0) = String.compare a b.
Proof.
  revert b. induction a as [|ca a IH]; intros [|cb b]; simpl; intros Ha Hb.
  - reflexivity.
  - apply andb_prop in Hb as [Hb _]. apply negb_true_iff, Z.eqb_neq in Hb.
    pose proof (code_range cb). apply Z.compare_lt_iff. lia.
  - apply andb_prop in Ha as [Ha _]. apply negb_true_iff, Z.eqb_neq in Ha.
    pose proof (code_range ca). apply Z.compare_gt_iff. lia.
  - apply andb_prop in Ha as [_ Ha]. apply andb_prop in Hb as [_ Hb].
    rewrite ascii_compare_code.
    destruct (Z.compare_spec (code ca) (code cb)) as [C|C|C].
    + rewrite C, Z.eqb_refl. now apply IH.
    + replace (code ca =? code cb) with false by (symmetry; apply Z.eqb_neq; lia).
      apply Z.compare_lt_iff. lia.
    + replace (code ca =? code cb) with false by (symmetry; apply Z.eqb_neq; lia).
      apply Z.compare_gt_iff. lia.
Qed.

Lemma length_append (a b : string) :
  String.length (a ++ b) = (String.length a + String.length b)%nat.
Proof. induction a as [|c a IH]; simpl; [reflexivity | now rewrite IH]. Qed.

Lemma append_nil_r (a : string) : a ++ "" = a.
Proof. induction a as [|c a IH]; simpl; [reflexivity | now rewrite IH]. Qed.

Lemma append_assoc (a b c : string) : (a ++ b) ++ c = a ++ b ++ c.
Proof. induction a as [|x a IH]; simpl; [reflexivity | now rewrite IH]. Qed.

Lemma substring_all (n : nat) (s : string) :
  (String.length s <= n)%nat -> substring 0 n s = s.
Proof.
  revert n. induction s as [|c s IH]; intros [|n] H; simpl in *; try reflexivity; try lia.
  f_equal. apply IH. lia.
Qed.

Lemma strncpy_all (n : nat) (s : string) :
  (String.length s <= n)%nat -> strncpy s n = s.
Proof.
  revert n. induction s as [|c s IH]; intros [|n] H; simpl in *; try reflexivity; try lia.
  f_equal. apply IH. lia.
Qed.

(** ** Numerals: what [strtol] reads *)

Lemma decimal_value_nonneg ds : all_chars isdigit ds = true -> 0 <= decimal_value ds.
Proof.
  induction ds as [|c r IH]; simpl; intros H; [lia|].
  apply andb_prop in H as [Hc Hr]. specialize (IH Hr).
  unfold isdigit in Hc. apply andb_prop in Hc as [H1 H2].
  apply Z.leb_le in H1, H2. unfold digit_value.
  assert (0 <= 10 ^ Z.of_nat (String.length r)) by (apply Z.pow_nonneg; lia).
  nia.
Qed.

Lemma scan_digits_app ds rest acc :
  all_chars isdigit ds = true -> starts_with isdigit rest = false ->
  scan_digits (ds ++ rest) acc
  = (acc * 10 ^ Z.of_nat (String.length ds) + decimal_value ds, String.length ds, rest).
Proof.
  revert acc. induction ds as [|c r IH]; simpl; intros acc H Hr.
  - destruct rest as [|x rest]; simpl in *.
    + f_equal. f_equal. lia.
    + rewrite Hr. f_equal. f_equal. lia.
  - apply andb_prop in H as [Hc H]. rewrite Hc, (IH _ H Hr).
    f_equal. f_equal.
    change (Z.pow_pos 10 (Pos.of_succ_nat (String.length r)))
      with (10 ^ Z.of_nat (S (String.length r))).
    rewrite Nat2Z.inj_succ, Z.pow_succ_r by lia. lia.
Qed.

Lemma skip_spaces_app ws t :
  all_chars isspace ws = true -> starts_with isspace t = false ->
  skip_spaces (ws ++ t) = t.
Proof.
  induction ws as [|c ws IH]; simpl; intros H Ht.
  - destruct t as [|x t]; simpl in *; [reflexivity | now rewrite Ht].
  - apply andb_prop in H as [Hc H]. rewrite Hc. now apply IH.
Qed.

Lemma strncmp_prefix p r : strncmp (p ++ r) p (String.length p) = 0.
Proof. induction p as [|c p IH]; simpl; [reflexivity | now rewrite Z.eqb_refl]. Qed.

Lemma advance_prefix p r : advance (String.length p) (p ++ r) = r.
Proof. induction p as [|c p IH]; simpl; [now destruct r | exact IH]. Qed.

Lemma strncmp_prefix_inv p f :
  no_nul p = true -> strncmp f p (String.length p) = 0 -> exists r, f = p ++ r.
Proof.
  revert f. induction p as [|c p IH]; simpl; intros f Hp H.
  - now exists f.
  - apply andb_prop in Hp as [Hc Hp]. apply negb_true_iff, Z.eqb_neq in Hc.
    destruct f as [|x f]; [lia|].
    destruct (code x =? code c) eqn:E.
    + apply Z.eqb_eq, code_inj in E. subst x.
      destruct (IH f Hp H) as [r ->]. now exists r.
    + apply Z.eqb_neq in E. lia.
Qed.

(** [strncmp] against the prefix agrees with the library's [prefix]. *)
Lemma strncmp_ordered_prefix f :
  (strncmp f "ordered." 8 =? 0) = String.prefix "ordered." f.
Proof.
  destruct (String.prefix "ordered." f) eqn:P.
  - apply prefix_correct in P. apply Z.eqb_eq.
    assert (exists r, f = "ordered." ++ r) as [r ->].
    { revert P. clear. intros P.
      do 8 (destruct f as [|? f]; [discriminate|]).
      simpl in P. injection P as -> -> -> -> -> -> -> -> _. now exists f. }
    exact (strncmp_prefix "ordered." r).
  - apply Z.eqb_neq. intros H.
    destruct (strncmp_prefix_inv "ordered." f eq_refl H) as [r ->].
    assert (String.prefix "ordered." ("ordered." ++ r) = true) as Q.
    { apply prefix_correct. simpl. clear. now destruct r. }
    congruence.
Qed.

Lemma extract_order_number_range f : -1 <= extract_order_number f <= INT_MAX.
Proof.
  unfold extract_order_number.
  destruct (negb _); [unfold INT_MAX; lia|].
  destruct (strtol _) as [num endptr].
  destruct (same_ptr _ _ || (num <? 0) || (num >? INT_MAX)) eqn:E; [unfold INT_MAX; lia|].
  apply orb_false_elim in E as [E H3]. apply orb_false_elim in E as [_ H2].
  apply Z.ltb_ge in H2. rewrite Z.gtb_ltb in H3. apply Z.ltb_ge in H3.
  rewrite wrap_int_id by (unfold INT_MIN, INT_MAX in *; lia). lia.
Qed.

Lemma isdigit_not_space c : isdigit c = true -> isspace c = false.
Proof.
  unfold isdigit, isspace. intros H. apply andb_prop in H as [H1 H2].
  apply Z.leb_le in H1, H2.
  apply orb_false_intro; [apply Z.eqb_neq; lia|].
  apply andb_false_intro2. apply Z.leb_gt. lia.
Qed.

Lemma isdigit_not_sign c : isdigit c = true -> (code c =? 45) = false /\ (code c =? 43) = false.
Proof.
  unfold isdigit. intros H. apply andb_prop in H as [H1 H2].
  apply Z.leb_le in H1, H2. split; apply Z.eqb_neq; lia.
Qed.

Lemma scan_digits_none u acc :
  starts_with isdigit u = false -> scan_digits u acc = (acc, O, u).
Proof. destruct u as [|c u]; simpl; intros H; [reflexivity | now rewrite H]. Qed.

Lemma strtol_numeral ws sgn ds rest :
  all_chars isspace ws = true ->
  sgn = "" \/ sgn = "+" \/ sgn = "-" ->
  all_chars isdigit ds = true -> ds <> "" ->
  starts_with isdigit rest = false ->
  strtol (ws ++ sgn ++ ds ++ rest)
  = (clamp_long (if is_minus sgn then - decimal_value ds else decimal_value ds), rest).
Proof.
  intros Hws Hsgn Hds Hne Hrest.
  destruct ds as [|d ds']; [congruence|].
  pose proof Hds as Hd. simpl in Hd. apply andb_prop in Hd as [Hd _].
  pose proof (isdigit_not_space d Hd) as Hsp.
  destruct (isdigit_not_sign d Hd) as [Hm Hp].
  unfold strtol.
  assert (skip_spaces (ws ++ sgn ++ String d ds' ++ rest) = sgn ++ String d ds' ++ rest) as ->.
  { apply skip_spaces_app; [exact Hws|].
    destruct Hsgn as [->|[->| ->]]; simpl; [exact Hsp | reflexivity | reflexivity]. }
  destruct Hsgn as [->|[->| ->]].
  - change ("" ++ String d ds' ++ rest) with (String d (ds' ++ rest)).
    cbv iota beta. rewrite Hm, Hp.
    change (String d (ds' ++ rest)) with (String d ds' ++ rest).
    rewrite (scan_digits_app _ _ 0 Hds Hrest). reflexivity.
  - change ("+" ++ String d ds' ++ rest) with (String "+" (String d ds' ++ rest)).
    cbv iota beta. change (code "+" =? 45) with false. change (code "+" =? 43) with true.
    cbv iota beta.
    rewrite (scan_digits_app _ _ 0 Hds Hrest). reflexivity.
  - change ("-" ++ String d ds' ++ rest) with (String "-" (String d ds' ++ rest)).
    cbv iota beta. change (code "-" =? 45) with true. cbv iota beta.
    rewrite (scan_digits_app _ _ 0 Hds Hrest). reflexivity.
Qed.

Lemma strtol_no_numeral ws rest :
  all_chars isspace ws = true ->
  starts_with isspace rest = false ->
  numeral_head rest = false ->
  strtol (ws ++ rest) = (0, ws ++ rest).
Proof.
  intros Hws Hsp Hnum. unfold strtol. rewrite (skip_spaces_app _ _ Hws Hsp).
  destruct rest as [|c t]; [reflexivity|].
  simpl in Hnum. apply orb_false_elim in Hnum as [Hd Hs].
  unfold is_sign in Hs.
  destruct (code c =? 45) eqn:E45.
  - simpl in Hs. now rewrite (scan_digits_none _ _ Hs).
  - destruct (code c =? 43) eqn:E43.
    + simpl in Hs. now rewrite (scan_digits_none _ _ Hs).
    + rewrite (scan_digits_none (String c t) 0 Hd). reflexivity.
Qed.

Lemma same_ptr_refl s : same_ptr s s = true.
Proof. unfold same_ptr. apply Nat.eqb_refl. Qed.

Lemma extract_order_number_numeral ws sgn ds rest :
  all_chars isspace ws = true ->
  sgn = "" \/ sgn = "+" \/ sgn = "-" ->
  all_chars isdigit ds = true -> ds <> "" ->
  starts_with isdigit rest = false ->
  extract_order_number ("ordered." ++ ws ++ sgn ++ ds ++ rest)
  = if is_minus sgn
    then (if decimal_value ds =? 0 then 0 else -1)
    else (if decimal_value ds <=? INT_MAX then decimal_value ds else -1).
Proof.
  intros Hws Hsgn Hds Hne Hrest. unfold extract_order_number.
  pose proof (strncmp_prefix "ordered." (ws ++ sgn ++ ds ++ rest)) as P.
  change (String.length "ordered.") with 8%nat in P. rewrite P. clear P.
  pose proof (advance_prefix "ordered." (ws ++ sgn ++ ds ++ rest)) as P.
  change (String.length "ordered.") with 8%nat in P. rewrite P. clear P.
  change (negb (0 =? 0)) with false. cbv iota.
  rewrite (strtol_numeral _ _ _ _ Hws Hsgn Hds Hne Hrest).
  assert (same_ptr rest (ws ++ sgn ++ ds ++ rest) = false) as ->.
  { unfold same_ptr. apply Nat.eqb_neq. rewrite !length_append.
    destruct ds; [congruence | simpl; lia]. }
  pose proof (decimal_value_nonneg ds Hds) as Hv.
  unfold clamp_long, LONG_MAX, LONG_MIN, INT_MAX.
  destruct (is_minus sgn).
  - assert ((- decimal_value ds >? 9223372036854775807) = false) as ->
      by (rewrite Z.gtb_ltb; apply Z.ltb_ge; lia).
    destruct (decimal_value ds =? 0) eqn:E0.
    + apply Z.eqb_eq in E0. rewrite E0. reflexivity.
    + apply Z.eqb_neq in E0.
      destruct (- decimal_value ds <? -9223372036854775808); [reflexivity|].
      simpl. replace (- decimal_value ds <? 0) with true
        by (symmetry; apply Z.ltb_lt; lia). reflexivity.
  - destruct (decimal_value ds >? 9223372036854775807) eqn:EL.
    + rewrite Z.gtb_ltb in EL. apply Z.ltb_lt in EL.
      replace (decimal_value ds <=? 2147483647) with false
        by (symmetry; apply Z.leb_gt; lia). reflexivity.
    + rewrite Z.gtb_ltb in EL. apply Z.ltb_ge in EL.
      replace (decimal_value ds <? -9223372036854775808) with false
        by (symmetry; apply Z.ltb_ge; lia).
      replace (decimal_value ds <? 0) with false by (symmetry; apply Z.ltb_ge; lia).
      simpl. rewrite Z.gtb_ltb.
      destruct (decimal_value ds <=? 2147483647) eqn:EI.
      * apply Z.leb_le in EI.
        replace (2147483647 <? decimal_value ds) with false
          by (symmetry; apply Z.ltb_ge; lia).
        apply wrap_int_id. unfold INT_MIN, INT_MAX. lia.
      * apply Z.leb_gt in EI.
        replace (2147483647 <? decimal_value ds) with true
          by (symmetry; apply Z.ltb_lt; lia). reflexivity.
Qed.

Lemma extract_order_number_no_numeral ws rest :
  all_chars isspace ws = true ->
  starts_with isspace rest = false ->
  numeral_head rest = false ->
  extract_order_number ("ordered." ++ ws ++ rest) = -1.
Proof.
  intros Hws Hsp Hnum. unfold extract_order_number.
  pose proof (strncmp_prefix "ordered." (ws ++ rest)) as P.
  change (String.length "ordered.") with 8%nat in P. rewrite P. clear P.
  pose proof (advance_prefix "ordered." (ws ++ rest)) as P.
  change (String.length "ordered.") with 8%nat in P. rewrite P. clear P.
  change (negb (0 =? 0)) with false. cbv iota.
  rewrite (strtol_no_numeral _ _ Hws Hsp Hnum), same_ptr_refl. reflexivity.
Qed.

(* ================================================================== *)
(** ** The classifier *)

(** C2 (as amended).  What [extract_order_number] returns for every
    filename: -1 when the name does not start with [ordered.]; for
    [ordered.<digits><rest>] the value of the digits when it is at most
    [INT_MAX] and -1 above; more generally white space and one sign are
    accepted between the prefix and the digits, a plus sign changing
    nothing and a minus sign giving -1 unless the value is zero; and -1
    when what follows the prefix, after white space, starts with neither
    a digit nor a sign and a digit. *)
Theorem extract_order_number_spec :
  (forall f, String.prefix "ordered." f = false -> extract_order_number f = -1)
  /\ (forall ds rest,
        all_chars isdigit ds = true -> ds <> "" -> starts_with isdigit rest = false ->
        extract_order_number ("ordered." ++ ds ++ rest)
        = if decimal_value ds <=? INT_MAX then decimal_value ds else -1)
  /\ (forall ws sgn ds rest,
        all_chars isspace ws = true -> sgn = "+" \/ sgn = "-" \/ sgn = "" ->
        all_chars isdigit ds = true -> ds <> "" -> starts_with isdigit rest = false ->
        extract_order_number ("ordered." ++ ws ++ sgn ++ ds ++ rest)
        = if is_minus sgn
          then (if decimal_value ds =? 0 then 0 else -1)
          else (if decimal_value ds <=? INT_MAX then decimal_value ds else -1))
  /\ (forall ws rest,
        all_chars isspace ws = true -> starts_with isspace rest = false ->
        numeral_head rest = false ->
        extract_order_number ("ordered." ++ ws ++ rest) = -1).
Proof.
  split; [|split; [|split]].
  - intros f P. unfold extract_order_number.
    rewrite strncmp_ordered_prefix, P. reflexivity.
  - intros ds rest Hds Hne Hrest.
    exact (extract_order_number_numeral "" "" ds rest eq_refl (or_introl eq_refl)
             Hds Hne Hrest).
  - intros ws sgn ds rest Hws Hsgn Hds Hne Hrest.
    apply extract_order_number_numeral; auto.
    destruct Hsgn as [->|[->| ->]]; auto.
  - intros ws rest. apply extract_order_number_no_numeral.
Qed.

Lemma extract_order_number_spec_witness :
  extract_order_number "fn.a" = -1
  /\ extract_order_number "ordered.07.setup" = 7
  /\ extract_order_number "ordered.99999999999.big" = -1
  /\ extract_order_number "ordered. -0x" = 0
  /\ extract_order_number "ordered.-5" = -1
  /\ extract_order_number "ordered.setup" = -1.
Proof.
  destruct extract_order_number_spec as (H1 & H2 & H3 & H4).
  split; [|split; [|split; [|split; [|split]]]].
  - apply H1. reflexivity.
  - apply (H2 "07" ".setup"); [reflexivity | discriminate | reflexivity].
  - apply (H2 "99999999999" ".big"); [reflexivity | discriminate | reflexivity].
  - apply (H3 " " "-" "0" "x");
      [reflexivity | right; left; reflexivity | reflexivity | discriminate | reflexivity].
  - apply (H3 "" "-" "5" "");
      [reflexivity | right; left; reflexivity | reflexivity | discriminate | reflexivity].
  - apply (H4 "" "setup"); reflexivity.
Defined.

(** C2 as stated fails: in [ordered.+7] no digit follows the prefix,
    the byte after it being a plus sign, and yet the name is not treated
    as unordered: its order number is 7.  The same holds with white
    space in place of the sign. *)
Lemma extract_order_number_sign_counterexample :
  String.prefix "ordered." "ordered.+7" = true
  /\ starts_with isdigit (advance 8 "ordered.+7") = false
  /\ extract_order_number "ordered.+7" = 7
  /\ starts_with isdigit (advance 8 "ordered. 7") = false
  /\ extract_order_number "ordered. 7" = 7.
Proof. repeat split. Qed.

Lemma categorize_spec c n :
  0 < c <= INT_MAX -> -1 <= n <= INT_MAX ->
  (categorize c n = Lower <-> 0 <= n < c)
  /\ (categorize c n = Upper <-> n = -1 \/ c <= n)
  /\ categorize c n <> Unordered.
Proof.
  unfold INT_MAX. intros Hc Hn. unfold categorize.
  destruct (Z.eq_dec n (-1)) as [->|Hneq].
  - change (-1 >=? 0) with false. change (to_uint (-1)) with 4294967295.
    cbv [andb].
    replace (4294967295 >=? c) with true by (symmetry; apply Z.geb_le; lia).
    split; [|split].
    + split; [discriminate | lia].
    + split; [now left | reflexivity].
    + discriminate.
  - rewrite to_uint_id by (unfold UINT_MAX; lia).
    replace (n >=? 0) with true by (symmetry; apply Z.geb_le; lia).
    cbv [andb]. rewrite Z.geb_leb.
    destruct (n <? c) eqn:E.
    + apply Z.ltb_lt in E. split; [|split].
      * split; [lia | reflexivity].
      * split; [discriminate | lia].
      * discriminate.
    + apply Z.ltb_ge in E.
      replace (c <=? n) with true by (symmetry; apply Z.leb_le; lia).
      split; [|split].
      * split; [discriminate | lia].
      * split; [now right | reflexivity].
      * discriminate.
Qed.

(** *** The scan as three filters with a cap *)

Lemma max_files_eq : Z.of_nat max_files = 1000.
Proof. reflexivity. Qed.

Global Opaque max_files.

Lemma push_length arr e :
  (List.length arr <= max_files)%nat -> (List.length (push arr e) <= max_files)%nat.
Proof.
  intros H. pose proof max_files_eq. unfold push, MAX_FILES.
  destruct (Z.of_nat (List.length arr) <? 1000) eqn:E; [|exact H].
  apply Z.ltb_lt in E. rewrite length_app. simpl. lia.
Qed.

Lemma push_all_firstn es : forall arr,
  (List.length arr <= max_files)%nat ->
  fold_left push es arr = firstn max_files (arr ++ es).
Proof.
  pose proof max_files_eq as M.
  induction es as [|e es IH]; intros arr H; simpl.
  - rewrite app_nil_r. symmetry. now apply firstn_all2.
  - rewrite (IH _ (push_length arr e H)). unfold push, MAX_FILES.
    destruct (Z.of_nat (List.length arr) <? 1000) eqn:E.
    + now rewrite <- app_assoc.
    + apply Z.ltb_ge in E. assert (List.length arr = max_files) as L by lia.
      rewrite !firstn_app, L, Nat.sub_diag. reflexivity.
Qed.

Lemma scan_step_array c st d b :
  array_of b (scan_step c st d)
  = if routed c b d then push (array_of b st) (new_entry d) else array_of b st.
Proof.
  unfold scan_step, routed.
  destruct (skipped d); [reflexivity|].
  change (order_num (new_entry d)) with (extract_order_number d).
  destruct (categorize c (extract_order_number d)); destruct b; reflexivity.
Qed.

Lemma scan_fold_array c b entries : forall st,
  array_of b (fold_left (scan_step c) entries st)
  = fold_left push (map new_entry (filter (routed c b) entries)) (array_of b st).
Proof.
  induction entries as [|d entries IH]; intros st; simpl; [reflexivity|].
  rewrite IH, scan_step_array.
  destruct (routed c b d); reflexivity.
Qed.

(** Each array is the first [MAX_FILES] of the entries routed to it,
    in the order [readdir] yields them. *)
Lemma scan_array c b entries :
  array_of b (scan c entries)
  = firstn max_files (map new_entry (filter (routed c b) entries)).
Proof.
  unfold scan. rewrite scan_fold_array.
  destruct b; simpl; apply push_all_firstn; simpl; lia.
Qed.

Lemma routed_unordered_never c d :
  0 < c <= INT_MAX -> routed c Unordered d = false.
Proof.
  intros Hc. unfold routed.
  destruct (categorize_spec c (extract_order_number d) Hc
              (extract_order_number_range d)) as (_ & _ & H).
  destruct (categorize c (extract_order_number d)); try congruence;
    simpl; apply andb_false_r.
Qed.

Lemma filter_none_in {A} (p : A -> bool) (l : list A) :
  (forall x, In x l -> p x = false) -> filter p l = [].
Proof.
  induction l as [|x l IH]; intros H; simpl; [reflexivity|].
  rewrite (H x (or_introl eq_refl)). apply IH. intros y Hy. apply H. now right.
Qed.

Lemma filter_none {A} (p : A -> bool) l :
  (forall x, p x = false) -> filter p l = [].
Proof. intros H. apply filter_none_in. intros x _. apply H. Qed.

(** No entry ever reaches the array of unordered files. *)
Lemma unordered_files_empty c entries :
  0 < c <= INT_MAX -> unordered_files (scan c entries) = [].
Proof.
  intros Hc.
  change (unordered_files (scan c entries)) with (array_of Unordered (scan c entries)).
  rewrite scan_array, filter_none; [reflexivity|].
  intros d. now apply routed_unordered_never.
Qed.

(** C1.  For every cutoff the program can hold and every directory, the
    array of unordered files stays empty: an entry whose order number is
    absent is routed to the upper array, together with the entries at or
    above the cutoff, and the lower array receives exactly the numbers
    from 0 up to the cutoff. *)
Theorem unordered_entries_routed_to_upper (c : Z) (entries : list string) :
  0 < c <= INT_MAX ->
  unordered_files (scan c entries) = []
  /\ (forall d, routed c Upper d = true <->
                skipped d = false
                /\ (extract_order_number d = -1 \/ c <= extract_order_number d))
  /\ (forall d, routed c Lower d = true <->
                skipped d = false /\ 0 <= extract_order_number d < c).
Proof.
  intros Hc. split; [|split].
  - now apply unordered_files_empty.
  - intros d. unfold routed.
    destruct (categorize_spec c (extract_order_number d) Hc
                (extract_order_number_range d)) as (_ & HU & _).
    destruct (skipped d); simpl; [split; [discriminate | intros [? _]; discriminate]|].
    rewrite <- HU.
    destruct (categorize c (extract_order_number d)); simpl;
      split; try tauto; try discriminate; intros [_ ?]; discriminate.
  - intros d. unfold routed.
    destruct (categorize_spec c (extract_order_number d) Hc
                (extract_order_number_range d)) as (HL & _ & _).
    destruct (skipped d); simpl; [split; [discriminate | intros [? _]; discriminate]|].
    rewrite <- HL.
    destruct (categorize c (extract_order_number d)); simpl;
      split; try tauto; try discriminate; intros [_ ?]; discriminate.
Qed.

Lemma unordered_entries_routed_to_upper_witness :
  unordered_files (scan 50 ["fn.a"]) = []
  /\ upper_files (scan 50 ["fn.a"]) = [mkFileEntry "fn.a" (-1) 4]
  /\ routed 50 Upper "fn.a" = true.
Proof.
  destruct (unordered_entries_routed_to_upper 50 ["fn.a"]) as (H1 & H2 & _).
  - unfold INT_MAX. lia.
  - split; [exact H1|]. split; [reflexivity|].
    apply H2. split; [reflexivity | left; reflexivity].
Defined.

(* ================================================================== *)
(** ** The comparators and the sort *)

Lemma compare_unordered_same a b : compare_unordered a b = compare_ordered_files a b.
Proof. reflexivity. Qed.

Section Comparator.

(** Order numbers of one array lie in [lo .. hi], an interval over
    which the subtraction of two of them does not overflow. *)
Variables lo hi : Z.
Hypothesis span : hi - lo <= INT_MAX.

Lemma compare_ordered_files_le a b :
  within lo hi a -> within lo hi b -> (compare_ordered_files a b <= 0 <-> key_le a b).
Proof.
  intros [Ha _] [Hb _]. unfold compare_ordered_files, key_le.
  destruct (order_num a =? order_num b) eqn:E; simpl.
  - apply Z.eqb_eq in E. split; [intros H; right; now split | intros [H|[_ H]]; lia].
  - apply Z.eqb_neq in E.
    rewrite wrap_int_id by (unfold INT_MIN, INT_MAX in *; lia).
    split; [intros H; left; lia | intros [H|[H _]]; lia].
Qed.

Lemma compare_ordered_files_gt a b :
  within lo hi a -> within lo hi b -> compare_ordered_files a b > 0 -> key_le b a.
Proof.
  intros [Ha _] [Hb _]. unfold compare_ordered_files, key_le.
  destruct (order_num a =? order_num b) eqn:E; simpl.
  - apply Z.eqb_eq in E. intros H. right. split; [lia|].
    rewrite strcmp_opp. lia.
  - apply Z.eqb_neq in E.
    rewrite wrap_int_id by (unfold INT_MIN, INT_MAX in *; lia).
    intros H. left. lia.
Qed.

Lemma key_le_trans a b c :
  within lo hi a -> within lo hi b -> within lo hi c -> key_le a b -> key_le b c -> key_le a c.
Proof.
  intros [_ Ha] [_ Hb] [_ Hc] [H1|[H1 S1]] [H2|[H2 S2]]; unfold key_le.
  - left; lia.
  - left; lia.
  - left; lia.
  - right. split; [lia|]. now apply (strcmp_trans _ (name b)).
Qed.

Lemma key_le_antisym a b :
  within lo hi a -> within lo hi b -> key_le a b -> key_le b a ->
  order_num a = order_num b /\ name a = name b.
Proof.
  intros [_ Ha] [_ Hb] [H1|[H1 S1]] [H2|[H2 S2]]; try lia.
  split; [exact H1|]. apply strcmp_eq; auto.
  rewrite strcmp_opp in S2. lia.
Qed.

Lemma qsort_insert_within x l :
  within lo hi x -> Forall (within lo hi) l -> Forall (within lo hi) (qsort_insert compare_ordered_files x l).
Proof.
  intros Hx Hl. induction Hl as [|y l Hy Hl IH]; simpl.
  - constructor; [exact Hx | constructor].
  - destruct (compare_ordered_files x y <=? 0).
    + constructor; [exact Hx|]. constructor; assumption.
    + constructor; assumption.
Qed.

Lemma qsort_insert_sorted x l :
  within lo hi x -> Forall (within lo hi) l -> StronglySorted key_le l ->
  StronglySorted key_le (qsort_insert compare_ordered_files x l)
  /\ (forall z, within lo hi z -> key_le z x -> Forall (key_le z) l ->
                Forall (key_le z) (qsort_insert compare_ordered_files x l)).
Proof.
  intros Hx Hl Hs. induction Hs as [|y l Hs IH Hy]; simpl.
  - split; [repeat constructor|]. intros z _ Hz _. constructor; [exact Hz | constructor].
  - apply Forall_cons_iff in Hl as [Wy Wl]. specialize (IH Wl) as [IH1 IH2].
    destruct (compare_ordered_files x y <=? 0) eqn:E.
    + apply Z.leb_le in E. apply (compare_ordered_files_le x y Hx Wy) in E.
      split.
      * constructor; [constructor; assumption|].
        constructor; [exact E|].
        rewrite Forall_forall in *. intros z Hz.
        apply (key_le_trans x y z); auto.
      * intros z Wz Hzx Hzl. constructor; [exact Hzx | exact Hzl].
    + apply Z.leb_gt in E.
      assert (key_le y x) as Hyx
        by (apply (compare_ordered_files_gt x y Hx Wy); lia).
      split.
      * constructor; [exact IH1|]. now apply IH2.
      * intros z Wz Hzx Hzl. apply Forall_cons_iff in Hzl as [Hzy Hzl].
        constructor; [exact Hzy|]. now apply IH2.
Qed.

Lemma qsort_within l :
  Forall (within lo hi) l -> Forall (within lo hi) (qsort compare_ordered_files l).
Proof.
  intros H. induction H as [|x l Hx Hl IH]; simpl; [constructor|].
  now apply qsort_insert_within.
Qed.

(** Over such an interval [qsort] returns the array in [key_le] order. *)
Lemma qsort_sorted l :
  Forall (within lo hi) l -> StronglySorted key_le (qsort compare_ordered_files l).
Proof.
  intros H. induction H as [|x l Hx Hl IH]; simpl; [constructor|].
  apply qsort_insert_sorted; auto. now apply qsort_within.
Qed.

(** A [key_le]-sorted arrangement of given entries is unique. *)
Lemma sorted_unique l1 : forall l2,
  Forall (within lo hi) l1 ->
  (forall e, In e l1 -> bytesize e = strlen (name e)) ->
  Permutation l1 l2 ->
  StronglySorted key_le l1 -> StronglySorted key_le l2 -> l1 = l2.
Proof.
  induction l1 as [|a l1 IH]; intros l2 W B P S1 S2.
  - apply Permutation_nil in P. now subst.
  - destruct l2 as [|b l2]; [apply Permutation_sym, Permutation_nil in P; discriminate|].
    apply StronglySorted_inv in S1 as [S1 A1]. apply StronglySorted_inv in S2 as [S2 A2].
    pose proof (Forall_cons_iff (within lo hi) a l1) as [F _]. specialize (F W) as [Wa W1].
    assert (Forall (within lo hi) (b :: l2)) as W2.
    { rewrite Forall_forall in *. intros e He. apply W.
      apply (Permutation_in e (Permutation_sym P) He). }
    apply Forall_cons_iff in W2 as [Wb W2].
    assert (a = b) as ->.
    { assert (key_le a b) as Hab.
      { destruct (Permutation_in b (Permutation_sym P) (or_introl eq_refl)) as [->|Hin].
        - right. split; [reflexivity | rewrite strcmp_refl; lia].
        - rewrite Forall_forall in A1. now apply A1. }
      assert (key_le b a) as Hba.
      { destruct (Permutation_in a P (or_introl eq_refl)) as [->|Hin].
        - right. split; [reflexivity | rewrite strcmp_refl; lia].
        - rewrite Forall_forall in A2. now apply A2. }
      destruct (key_le_antisym a b Wa Wb Hab Hba) as [Ho Hn].
      pose proof (B a (or_introl eq_refl)) as Ba.
      assert (bytesize b = strlen (name b)) as Bb.
      { apply B. apply (Permutation_in b (Permutation_sym P)). now left. }
      destruct a, b; simpl in *. congruence. }
    f_equal. apply IH; auto.
    + intros e He. apply B. now right.
    + now apply Permutation_cons_inv in P.
Qed.

End Comparator.

Lemma qsort_insert_perm cmp x l : Permutation (qsort_insert cmp x l) (x :: l).
Proof.
  induction l as [|y l IH]; simpl; [reflexivity|].
  destruct (cmp x y <=? 0); [reflexivity|].
  rewrite IH. apply perm_swap.
Qed.

(** Whatever the comparator, the sort rearranges and nothing more. *)
Lemma qsort_perm cmp l : Permutation (qsort cmp l) l.
Proof.
  induction l as [|x l IH]; simpl; [reflexivity|].
  rewrite qsort_insert_perm. now constructor.
Qed.

(** C6.  Both comparators subtract the order numbers as [int]s.  For
    the entries of [ordered.2147483647] and of [fn.a], which the scan
    stores side by side in the upper array, the subtraction overflows:
    each entry compares below the other, so the comparator is neither
    antisymmetric nor ordered by number there, and the sort leaves the
    larger number in front of the absent one. *)
Theorem compare_ordered_files_overflow :
  let a := new_entry "ordered.2147483647" in
  let b := new_entry "fn.a" in
  upper_files (scan 50 ["ordered.2147483647"; "fn.a"]) = [a; b]
  /\ order_num a = 2147483647 /\ order_num b = -1
  /\ compare_ordered_files a b = -2147483648
  /\ compare_ordered_files b a = -2147483648
  /\ compare_unordered a b = -2147483648
  /\ compare_unordered b a = -2147483648
  /\ qsort compare_ordered_files [a; b] = [a; b].
Proof. repeat split. Qed.

(* ================================================================== *)
(** ** The capacity of the arrays *)






(* ================================================================== *)
(** ** The argument loop *)

Lemma verdict_zero x y : verdict x y = 0 -> x = y.
Proof.
  unfold verdict. destruct (x =? y) eqn:E; [now apply Z.eqb_eq in E|].
  destruct (x <? y); discriminate.
Qed.

(** A string cannot match two flags that differ beyond case. *)
Lemma wal_stricmp_same_flag a : forall b b',
  Forall (fun z => z <> 0) (folded b) -> Forall (fun z => z <> 0) (folded b') ->
  wal_stricmp a b = 0 -> wal_stricmp a b' = 0 -> folded b = folded b'.
Proof.
  induction a as [|ca a IH]; intros [|cb b] [|cb' b'] Nb Nb' H H'; simpl in *;
    try reflexivity.
  - apply verdict_zero in H'. apply Forall_inv in Nb'. now rewrite <- H' in Nb'.
  - apply verdict_zero in H. apply Forall_inv in Nb. now rewrite <- H in Nb.
  - apply verdict_zero in H. apply Forall_inv in Nb. now rewrite <- H in Nb.
  - apply verdict_zero in H. apply Forall_inv in Nb'.
    destruct (fold_case (code ca) =? fold_case (code cb')) eqn:E.
    + apply Z.eqb_eq in E. rewrite <- E, H in Nb'. now elim Nb'.
    + simpl in H'. apply verdict_zero in H'. apply Z.eqb_neq in E. contradiction.
  - apply verdict_zero in H'. apply Forall_inv in Nb.
    destruct (fold_case (code ca) =? fold_case (code cb)) eqn:E.
    + apply Z.eqb_eq in E. rewrite <- E, H' in Nb. now elim Nb.
    + simpl in H. apply verdict_zero in H. apply Z.eqb_neq in E. contradiction.
  - assert (forall c s,
              Forall (fun z => z <> 0) (folded (String c s)) ->
              (if (fold_case (code ca) =? fold_case (code c))
                  && negb (fold_case (code ca) =? 0)
               then wal_stricmp a s
               else verdict (fold_case (code ca)) (fold_case (code c))) = 0 ->
              fold_case (code ca) = fold_case (code c) /\ wal_stricmp a s = 0) as K.
    { intros c s N E. apply Forall_inv in N.
      destruct (fold_case (code ca) =? fold_case (code c)) eqn:E1.
      - apply Z.eqb_eq in E1. rewrite <- E1 in N.
        replace (fold_case (code ca) =? 0) with false in E
          by (symmetry; now apply Z.eqb_neq).
        now split.
      - simpl in E. apply verdict_zero in E. apply Z.eqb_neq in E1. contradiction. }
    destruct (K cb b Nb H) as [E1 W1]. destruct (K cb' b' Nb' H') as [E2 W2].
    unfold folded in *. simpl in *. f_equal; [congruence|].
    apply IH; auto; [now apply Forall_inv_tail in Nb | now apply Forall_inv_tail in Nb'].
Qed.

Lemma is_cutoff_only a :
  is_cutoff a = true -> is_init a = false /\ is_bundle a = false /\ is_debug a = false.
Proof.
  unfold is_cutoff, is_init, is_bundle, is_debug. intros H. apply Z.eqb_eq in H.
  assert (forall b, folded "--cutoff" <> folded b ->
                    Forall (fun z => z <> 0) (folded b) ->
                    (wal_stricmp a b =? 0) = false) as K.
  { intros b D N. apply Z.eqb_neq. intros H'. apply D.
    apply (wal_stricmp_same_flag a); auto.
    repeat constructor; discriminate. }
  repeat split; apply K; try discriminate; repeat constructor; discriminate.
Qed.

(** One turn of the loop, by the flag its argument matches. *)
Lemma parse_flags_step a rest o w :
  parse_flags (a :: rest) o w
  = (if is_init a then
       parse_flags rest (mkOptions (cutoff_count o) true (bundle o) (debugtext o))
     else if is_bundle a then
       parse_flags rest (mkOptions (cutoff_count o) (init o) true (debugtext o))
     else if is_debug a then
       parse_flags rest (mkOptions (cutoff_count o) (init o) (bundle o) true)
     else if is_cutoff a then
       match rest with
       | value :: rest' =>
           if atoi value <=? 0 then reject_cutoff
           else parse_flags rest' (set_cutoff o (atoi value))
       | [] => ret o
       end
     else parse_flags rest o) w.
Proof.
  unfold is_init, is_bundle, is_debug, is_cutoff. simpl.
  destruct (wal_stricmp a "--init" =? 0); [reflexivity|].
  destruct (wal_stricmp a "--bundle" =? 0); [reflexivity|].
  destruct (wal_stricmp a "--debug" =? 0); [reflexivity|].
  destruct rest as [|value rest']; [now destruct (wal_stricmp a "--cutoff" =? 0)|].
  destruct (wal_stricmp a "--cutoff" =? 0); [|reflexivity].
  destruct (atoi value <=? 0); [|reflexivity].
  unfold reject_cutoff, cutoff_error, bind, emit, halt. simpl.
  now rewrite <- app_assoc.
Qed.

(** The loop either goes through, writing nothing, or stops on a
    cutoff that is not positive. *)
Lemma parse_flags_outcome n : forall args o w,
  (List.length args <= n)%nat ->
  (exists o', parse_flags args o w = Next o' w)
  \/ parse_flags args o w = reject_cutoff w.
Proof.
  induction n as [|n IH]; intros [|a rest] o w L; simpl in L;
    try (left; exists o; reflexivity); try lia.
  rewrite parse_flags_step.
  destruct (is_init a); [apply IH; lia|].
  destruct (is_bundle a); [apply IH; lia|].
  destruct (is_debug a); [apply IH; lia|].
  destruct (is_cutoff a); [|apply IH; lia].
  destruct rest as [|value rest']; [left; exists o; reflexivity|].
  destruct (atoi value <=? 0); [now right|].
  apply IH. simpl in L. lia.
Qed.

Lemma parse_flags_app n : forall pre suffix o w,
  (List.length pre <= n)%nat -> flag_boundary pre = true ->
  parse_flags (pre ++ suffix) o w
  = match parse_flags pre o w with
    | Next o' w' => parse_flags suffix o' w'
    | Halt r w' => Halt r w'
    end.
Proof.
  induction n as [|n IH]; intros [|a rest] suffix o w L B; simpl in L;
    try reflexivity; try lia.
  change ((a :: rest) ++ suffix)%list with (a :: (rest ++ suffix))%list.
  rewrite !parse_flags_step. simpl in B.
  destruct (is_cutoff a) eqn:EC.
  - destruct (is_cutoff_only a EC) as (E1 & E2 & E3). rewrite E1, E2, E3.
    destruct rest as [|value rest']; [discriminate|].
    cbn [app]. destruct (atoi value <=? 0); [reflexivity|].
    apply IH; [simpl in L; lia | exact B].
  - destruct (is_init a); [apply IH; [lia | exact B]|].
    destruct (is_bundle a); [apply IH; [lia | exact B]|].
    destruct (is_debug a); apply IH; try lia; exact B.
Qed.

Lemma parse_flags_unknown x rest o w :
  known_flag x = false -> parse_flags (x :: rest) o w = parse_flags rest o w.
Proof.
  unfold known_flag. intros H.
  apply orb_false_elim in H as [H H4]. apply orb_false_elim in H as [H H3].
  apply orb_false_elim in H as [H1 H2].
  now rewrite parse_flags_step, H1, H2, H3, H4.
Qed.

Lemma parse_flags_cutoff_last x o w :
  is_cutoff x = true -> parse_flags [x] o w = Next o w.
Proof.
  intros H. destruct (is_cutoff_only x H) as (H1 & H2 & H3).
  now rewrite parse_flags_step, H1, H2, H3, H.
Qed.

Lemma parse_flags_cutoff x value rest o w :
  is_cutoff x = true ->
  parse_flags (x :: value :: rest) o w
  = if atoi value <=? 0 then reject_cutoff w
    else parse_flags rest (set_cutoff o (atoi value)) w.
Proof.
  intros H. destruct (is_cutoff_only x H) as (H1 & H2 & H3).
  rewrite parse_flags_step, H1, H2, H3, H. now destruct (atoi value <=? 0).
Qed.

Lemma run_parse_flags fuel env prog d flags1 flags2 :
  parse_flags flags1 default_options (mkWorld [] 0)
  = parse_flags flags2 default_options (mkWorld [] 0) ->
  run fuel env prog (d :: flags1) = run fuel env prog (d :: flags2).
Proof. intros H. unfold run, main, main_with, bind. now rewrite H. Qed.

(** C5 as stated fails on values that are positive integers and on
    values that are not.  [4294967297] is cut to an [int] and sets the
    cutoff to 1, which the output shows; [2147483648] is cut to
    [INT_MIN] and rejected; [7x], [7.9], [+7] and [ 7] are no decimal
    numerals, and each sets the cutoff to 7 and lets the run go on. *)
Lemma cutoff_flag_counterexample :
  parse_flags ["--cutoff"; "4294967297"] default_options (mkWorld [] 0)
  = Next (mkOptions 1 false false false) (mkWorld [] 0)
  /\ run 0 quiet_env "scriptsort" ["d"; "--cutoff"; "4294967297"]
     = ([OpenDir "d";
         Stdout ("fn.a" ++ nl ++ "fn.b" ++ nl ++ "ordered.01.first" ++ nl
                 ++ "ordered.52.last" ++ nl)],
        Exit EXIT_SUCCESS)
  /\ atoi "2147483648" = INT_MIN
  /\ run 0 quiet_env "scriptsort" ["d"; "--cutoff"; "2147483648"]
     = (cutoff_error, Exit 1)
  /\ map atoi ["7x"; "7.9"; "+7"; " 7"] = [7; 7; 7; 7]
  /\ Forall (fun value =>
               run 0 quiet_env "scriptsort" ["d"; "--cutoff"; value]
               = run 0 quiet_env "scriptsort" ["d"; "--cutoff"; "7"])
       ["7x"; "7.9"; "+7"; " 7"]
  /\ run 0 quiet_env "scriptsort" ["d"; "--cutoff"; "7"]
     = ([OpenDir "d";
         Stdout ("ordered.01.first" ++ nl ++ "fn.a" ++ nl ++ "fn.b" ++ nl
                 ++ "ordered.52.last" ++ nl)],
        Exit EXIT_SUCCESS).
Proof.
  split; [reflexivity|]. split; [reflexivity|]. split; [reflexivity|].
  split; [reflexivity|]. split; [reflexivity|]. split; [|reflexivity].
  repeat constructor.
Qed.

(** C10 (as amended).  An argument in flag position (not the value taken by a
    [--cutoff] before it) that matches none of the four flags changes
    nothing: the run is the run without it.  A [--cutoff] that is the
    last argument changes nothing either, the cutoff staying as it was,
    at 50 when no earlier flag set it. *)
Theorem unknown_arguments_ignored (fuel : nat) (env : Env) (prog d : string)
    (pre : list string) (x : string) (rest : list string) :
  flag_boundary pre = true ->
  (known_flag x = false ->
   run fuel env prog (d :: pre ++ x :: rest) = run fuel env prog (d :: pre ++ rest))
  /\ (is_cutoff x = true ->
      run fuel env prog (d :: pre ++ [x]) = run fuel env prog (d :: pre)
      /\ forall w, parse_flags [x] default_options w = Next default_options w)
  /\ cutoff_count default_options = 50.
Proof.
  intros B. split; [|split; [|reflexivity]].
  - intros K. apply run_parse_flags.
    rewrite !(parse_flags_app (List.length pre)) by (auto; lia).
    destruct (parse_flags pre default_options (mkWorld [] 0)); [|reflexivity].
    now apply parse_flags_unknown.
  - intros C. split; [|intros w; now apply parse_flags_cutoff_last].
    apply run_parse_flags.
    rewrite (parse_flags_app (List.length pre)) by (auto; lia).
    destruct (parse_flags pre default_options (mkWorld [] 0)); [|reflexivity].
    now apply parse_flags_cutoff_last.
Qed.

Lemma unknown_arguments_ignored_witness :
  run 0 quiet_env "scriptsort" ["d"; "--Init"; "--verbose"; "--debug"]
  = run 0 quiet_env "scriptsort" ["d"; "--Init"; "--debug"]
  /\ run 0 quiet_env "scriptsort" ["d"; "--Init"; "--CUTOFF"]
     = run 0 quiet_env "scriptsort" ["d"; "--Init"].
Proof.
  split.
  - apply (unknown_arguments_ignored 0 quiet_env "scriptsort" "d"
             ["--Init"] "--verbose" ["--debug"]); reflexivity.
  - apply (unknown_arguments_ignored 0 quiet_env "scriptsort" "d"
             ["--Init"] "--CUTOFF" []); reflexivity.
Defined.

(** C10 as stated fails for an argument that is not in flag position.
    After [--cutoff] the argument [--verbose], which matches no flag,
    is taken as the value: [atoi] reads 0 and the run is the cutoff
    message and exit status 1, where without it the run lists the
    directory. *)
Lemma unknown_arguments_counterexample :
  known_flag "--verbose" = false
  /\ flag_boundary ["--cutoff"] = false
  /\ atoi "--verbose" = 0
  /\ run 0 quiet_env "scriptsort" ["d"; "--cutoff"; "--verbose"]
     = (cutoff_error, Exit 1)
  /\ run 0 quiet_env "scriptsort" ["d"; "--cutoff"]
     = ([OpenDir "d";
         Stdout ("ordered.01.first" ++ nl ++ "fn.a" ++ nl ++ "fn.b" ++ nl
                 ++ "ordered.52.last" ++ nl)],
        Exit EXIT_SUCCESS).
Proof. repeat split; reflexivity. Qed.

Lemma atoi_decimal ds :
  all_chars isdigit ds = true -> ds <> "" -> decimal_value ds <= INT_MAX ->
  atoi ds = decimal_value ds.
Proof.
  intros Hds Hne Hmax. unfold atoi.
  pose proof (strtol_numeral "" "" ds "" eq_refl (or_introl eq_refl) Hds Hne eq_refl) as S.
  simpl in S. rewrite append_nil_r in S. rewrite S. simpl.
  pose proof (decimal_value_nonneg ds Hds).
  unfold clamp_long, LONG_MAX, LONG_MIN, INT_MAX in *.
  replace (decimal_value ds >? 9223372036854775807) with false
    by (symmetry; rewrite Z.gtb_ltb; apply Z.ltb_ge; lia).
  replace (decimal_value ds <? -9223372036854775808) with false
    by (symmetry; apply Z.ltb_ge; lia).
  apply wrap_int_id. unfold INT_MIN, INT_MAX. lia.
Qed.

(** C5 (as amended).  At a [--cutoff] in flag position followed by a
    value, the value is read by [atoi]: when the result is positive the
    cutoff becomes that number and the loop goes on; otherwise the run
    is the two lines of the cutoff message on standard output and exit
    status 1, with no directory opened and nothing else written.  What
    [atoi] reads: after any white space, an optional sign and the
    longest run of digits, whatever follows being ignored, clamped to
    a [long] and cut to an [int]; 0 when no digit stands there.  So a
    decimal numeral from 1 to [INT_MAX] is read as its value. *)
Theorem cutoff_flag (fuel : nat) (env : Env) (prog d : string)
    (pre : list string) (flag value : string) (rest : list string) :
  flag_boundary pre = true -> is_cutoff flag = true ->
  (atoi value <= 0 ->
   run fuel env prog (d :: pre ++ flag :: value :: rest) = (cutoff_error, Exit 1)
   /\ scanned (fst (run fuel env prog (d :: pre ++ flag :: value :: rest))) = false
   /\ stderr_of (fst (run fuel env prog (d :: pre ++ flag :: value :: rest))) = "")
  /\ (0 < atoi value ->
      forall o w o1 w1,
        parse_flags pre o w = Next o1 w1 ->
        parse_flags (pre ++ flag :: value :: rest) o w
        = parse_flags rest
            (mkOptions (atoi value) (init o1) (bundle o1) (debugtext o1)) w1)
  /\ (all_chars isdigit value = true ->
      0 < decimal_value value <= INT_MAX -> atoi value = decimal_value value)
  /\ (forall ws sgn ds tail,
        value = ws ++ sgn ++ ds ++ tail ->
        all_chars isspace ws = true -> sgn = "" \/ sgn = "+" \/ sgn = "-" ->
        all_chars isdigit ds = true -> ds <> "" -> starts_with isdigit tail = false ->
        atoi value
        = wrap_int (clamp_long (if is_minus sgn then - decimal_value ds
                                else decimal_value ds)))
  /\ (forall ws tail,
        value = ws ++ tail ->
        all_chars isspace ws = true -> starts_with isspace tail = false ->
        numeral_head tail = false ->
        atoi value = 0).
Proof.
  intros B C. split; [|split; [|split; [|split]]];
    [| | |intros ws sgn ds tail -> Hw Hs Hd Hne Ht; unfold atoi;
          now rewrite (strtol_numeral ws sgn ds tail Hw Hs Hd Hne Ht)
        |intros ws tail -> Hw Ht Hh; unfold atoi;
          now rewrite (strtol_no_numeral ws tail Hw Ht Hh)].
  - intros Hv.
    assert (run fuel env prog (d :: pre ++ flag :: value :: rest) = (cutoff_error, Exit 1)) as R.
    { unfold run, main, main_with, bind.
      rewrite (parse_flags_app (List.length pre)) by (auto; lia).
      destruct (parse_flags_outcome (List.length pre) pre default_options (mkWorld [] 0)
                  (le_n _)) as [[o' ->]| ->].
      - rewrite (parse_flags_cutoff _ _ _ _ _ C).
        replace (atoi value <=? 0) with true by (symmetry; apply Z.leb_le; lia).
        reflexivity.
      - reflexivity. }
    rewrite R. repeat split.
  - intros Hv o w o1 w1 P.
    rewrite (parse_flags_app (List.length pre)) by (auto; lia).
    rewrite P, (parse_flags_cutoff _ _ _ _ _ C).
    replace (atoi value <=? 0) with false by (symmetry; apply Z.leb_gt; lia).
    unfold set_cutoff. rewrite to_uint_id; [reflexivity|].
    pose proof (wrap_int_range (fst (strtol value))) as Rg.
    unfold atoi in *. unfold INT_MIN, INT_MAX, UINT_MAX in *. lia.
  - intros Hds Hv. apply atoi_decimal; [exact Hds | | lia].
    intros ->. simpl in Hv. lia.
Qed.

Lemma cutoff_flag_witness :
  run 0 quiet_env "scriptsort" ["d"; "--bundle"; "--cutoff"; "0"] = (cutoff_error, Exit 1)
  /\ run 0 quiet_env "scriptsort" ["d"; "--cutoff"; "-5"; "--init"] = (cutoff_error, Exit 1)
  /\ parse_flags ["--bundle"; "--cutoff"; "10"] default_options (mkWorld [] 0)
     = Next (mkOptions 10 false true false) (mkWorld [] 0).
Proof.
  split; [|split].
  - apply (cutoff_flag 0 quiet_env "scriptsort" "d" ["--bundle"] "--cutoff" "0" []);
      [reflexivity | reflexivity | vm_compute; discriminate].
  - apply (cutoff_flag 0 quiet_env "scriptsort" "d" [] "--cutoff" "-5" ["--init"]);
      [reflexivity | reflexivity | vm_compute; discriminate].
  - exact (proj1 (proj2 (cutoff_flag 0 quiet_env "scriptsort" "d" ["--bundle"]
                            "--cutoff" "10" [] eq_refl eq_refl))
             eq_refl default_options (mkWorld [] 0) _ _ eq_refl).
Defined.

(* ================================================================== *)
(** ** The capacity of the bundle buffer *)

Lemma grow_capacity_doubles (j : nat) : forall cap needed fuel,
  0 < cap -> cap * 2 ^ Z.of_nat j <= HALF_SIZE -> needed <= cap * 2 ^ Z.of_nat j ->
  (j <= fuel)%nat ->
  exists i : nat,
    (i <= j)%nat
    /\ grow_capacity fuel cap needed = Some (cap * 2 ^ Z.of_nat i)
    /\ needed <= cap * 2 ^ Z.of_nat i
    /\ (needed <= cap -> i = O)
    /\ (cap < needed -> (0 < i)%nat /\ cap * 2 ^ Z.of_nat (i - 1) < needed).
Proof.
  unfold HALF_SIZE.
  induction j as [|j IH]; intros cap needed fuel Hc Hmax Hn Hf.
  - simpl in Hn, Hmax. exists O.
    assert (grow_capacity fuel cap needed = Some cap) as G.
    { destruct fuel; simpl; replace (cap <? needed) with false
        by (symmetry; apply Z.ltb_ge; lia); reflexivity. }
    rewrite G. simpl. rewrite Z.mul_1_r. repeat split; auto; lia.
  - rewrite Nat2Z.inj_succ, Z.pow_succ_r in Hmax, Hn by lia.
    destruct (Z.ltb_spec cap needed) as [Lt|Ge].
    + destruct fuel as [|fuel]; [lia|]. simpl.
      replace (cap <? needed) with true by (symmetry; apply Z.ltb_lt; lia).
      assert (0 < 2 ^ Z.of_nat j) as Hp by (apply Z.pow_pos_nonneg; lia).
      rewrite wrap_size_id by (unfold SIZE_MAX; nia).
      destruct (IH (cap * 2) needed fuel) as (i & Hi & G & N1 & N2 & N3);
        try lia.
      exists (S i). rewrite G.
      rewrite Nat2Z.inj_succ, Z.pow_succ_r by lia.
      split; [lia|]. split; [f_equal; lia|]. split; [lia|]. split; [lia|].
      intros _. split; [lia|].
      replace (S i - 1)%nat with i by lia.
      destruct (Z.ltb_spec (cap * 2) needed) as [Lt2|Ge2].
      * destruct (N3 Lt2) as [Hpos Hprev].
        replace (Z.of_nat i) with (Z.succ (Z.of_nat (i - 1))) by lia.
        rewrite Z.pow_succ_r by lia. lia.
      * rewrite (N2 Ge2). simpl. lia.
    + exists O.
      assert (grow_capacity fuel cap needed = Some cap) as G.
      { destruct fuel; simpl; replace (cap <? needed) with false
          by (symmetry; apply Z.ltb_ge; lia); reflexivity. }
      rewrite G. simpl. rewrite Z.mul_1_r. repeat split; auto; lia.
Qed.

Lemma grow_capacity_zero fuel needed :
  0 < needed -> grow_capacity fuel 0 needed = None.
Proof.
  intros H. induction fuel as [|fuel IH]; simpl;
    replace (0 <? needed) with true by (symmetry; apply Z.ltb_lt; lia);
    [reflexivity | exact IH].
Qed.

Lemma grow_capacity_wraps (j : nat) : forall cap needed fuel,
  0 < cap -> cap * 2 ^ Z.of_nat j = HALF_SIZE -> HALF_SIZE < needed ->
  grow_capacity fuel cap needed = None.
Proof.
  unfold HALF_SIZE.
  induction j as [|j IH]; intros cap needed fuel Hc Hj Hn.
  - simpl in Hj. rewrite Z.mul_1_r in Hj. subst cap.
    destruct fuel as [|fuel]; simpl;
      replace (9223372036854775808 <? needed) with true
        by (symmetry; apply Z.ltb_lt; lia); [reflexivity|].
    change (wrap_size (9223372036854775808 * 2)) with 0.
    apply grow_capacity_zero. lia.
  - rewrite Nat2Z.inj_succ, Z.pow_succ_r in Hj by lia.
    assert (0 < 2 ^ Z.of_nat j) as Hp by (apply Z.pow_pos_nonneg; lia).
    destruct fuel as [|fuel]; simpl;
      replace (cap <? needed) with true by (symmetry; apply Z.ltb_lt; nia);
      [reflexivity|].
    rewrite wrap_size_id by (unfold SIZE_MAX; nia).
    apply IH; lia.
Qed.

Lemma initial_capacity_room (k : nat) :
  INITIAL_BUFFER_SIZE * 2 ^ Z.of_nat k <= HALF_SIZE ->
  (k <= 51)%nat
  /\ INITIAL_BUFFER_SIZE * 2 ^ Z.of_nat k * 2 ^ Z.of_nat (51 - k) = HALF_SIZE.
Proof.
  unfold INITIAL_BUFFER_SIZE, HALF_SIZE. intros H.
  assert (k <= 51)%nat as K.
  { destruct (Nat.le_gt_cases k 51) as [L|G]; [exact L|].
    assert (2 ^ 52 <= 2 ^ Z.of_nat k) by (apply Z.pow_le_mono_r; lia).
    change (2 ^ 52) with 4503599627370496 in *. lia. }
  split; [exact K|].
  rewrite <- Z.mul_assoc, <- Z.pow_add_r by lia.
  replace (Z.of_nat k + Z.of_nat (51 - k)) with 51 by lia. reflexivity.
Qed.

(** C7 (as amended).  With the capacity at [INITIAL_BUFFER_SIZE * 2^k],
    a request of at most 2^63 bytes for [current_size + file_size + 2]
    and the reallocation succeeding, [ensure_buffer_capacity] returns
    with the capacity at [INITIAL_BUFFER_SIZE * 2^(k+i)], large enough
    for the request; [i] is 0 and nothing changes when the request fits
    the old capacity, and otherwise [i] is the least number of
    doublings that makes it fit. *)
Theorem ensure_buffer_capacity_doubles (fuel : nat) (env : Env) (buf : list cell)
    (k : nat) (current_size file_size : Z) (w : World) :
  let cap := INITIAL_BUFFER_SIZE * 2 ^ Z.of_nat k in
  let needed := wrap_size (current_size + file_size + 2) in
  cap <= HALF_SIZE ->
  0 <= current_size -> 0 <= file_size -> current_size + file_size + 2 <= HALF_SIZE ->
  (64 <= fuel)%nat ->
  (forall n, alloc_ok env (allocs w) n = true) ->
  exists (i : nat) buf' w',
    ensure_buffer_capacity fuel env buf cap needed w
    = Next (Some buf', INITIAL_BUFFER_SIZE * 2 ^ Z.of_nat (k + i)) w'
    /\ current_size + file_size + 2 <= INITIAL_BUFFER_SIZE * 2 ^ Z.of_nat (k + i)
    /\ (needed <= cap -> i = O /\ buf' = buf /\ w' = w)
    /\ (cap < needed ->
        (0 < i)%nat /\ cap * 2 ^ Z.of_nat (i - 1) < needed
        /\ buf' = realloc_cells buf (cap * 2 ^ Z.of_nat i)).
Proof.
  intros cap needed Hcap Hcs Hfs Hsum Hfuel Halloc.
  destruct (initial_capacity_room k Hcap) as [Hk Hroom]. fold cap in Hroom.
  assert (needed = current_size + file_size + 2) as Hneeded
    by (apply wrap_size_id; unfold SIZE_MAX, HALF_SIZE in *; lia).
  assert (0 < cap) as Hpos.
  { unfold cap, INITIAL_BUFFER_SIZE.
    assert (0 < 2 ^ Z.of_nat k) by (apply Z.pow_pos_nonneg; lia). lia. }
  assert (forall i : nat,
            INITIAL_BUFFER_SIZE * 2 ^ Z.of_nat (k + i) = cap * 2 ^ Z.of_nat i) as Hshape.
  { intros i. unfold cap. rewrite Nat2Z.inj_add, Z.pow_add_r by lia. lia. }
  clearbody cap needed.
  destruct (grow_capacity_doubles (51 - k) cap needed fuel) as (i & Hi & G & N1 & N2 & N3);
    try lia.
  unfold ensure_buffer_capacity.
  destruct (Z.ltb_spec cap needed) as [Lt|Ge].
  - replace (needed >? cap) with true by (symmetry; rewrite Z.gtb_ltb; apply Z.ltb_lt; lia).
    rewrite G. unfold bind, allocate, ret. rewrite Halloc. cbn [negb].
    exists i, (realloc_cells buf (cap * 2 ^ Z.of_nat i)),
           (mkWorld (trace w) (S (allocs w))).
    rewrite Hshape. split; [reflexivity|]. split; [lia|]. split; [intros; lia|].
    intros _. destruct (N3 Lt) as [A B]. auto.
  - replace (needed >? cap) with false by (symmetry; rewrite Z.gtb_ltb; apply Z.ltb_ge; lia).
    rewrite (N2 Ge) in *. exists O, buf, w. rewrite Hshape.
    change (2 ^ Z.of_nat 0) with 1 in *. rewrite Z.mul_1_r in *.
    split; [reflexivity|]. split; [lia|]. split; [auto | intros; lia].
Qed.

Lemma ensure_buffer_capacity_doubles_witness :
  exists (i : nat) buf' w',
    ensure_buffer_capacity 64 quiet_env [Byte NUL] (INITIAL_BUFFER_SIZE * 2 ^ Z.of_nat 0)
      (wrap_size (4000 + 998 + 2)) (mkWorld [] 0)
    = Next (Some buf', INITIAL_BUFFER_SIZE * 2 ^ Z.of_nat (0 + i)) w'
    /\ 4000 + 998 + 2 <= INITIAL_BUFFER_SIZE * 2 ^ Z.of_nat (0 + i).
Proof.
  destruct (ensure_buffer_capacity_doubles 64 quiet_env [Byte NUL] 0 4000 998 (mkWorld [] 0))
    as (i & buf' & w' & H1 & H2 & _).
  - vm_compute. discriminate.
  - lia.
  - lia.
  - vm_compute. discriminate.
  - lia.
  - reflexivity.
  - exists i, buf', w'. split; [exact H1 | exact H2].
Defined.

(** C7 as stated fails at both ends.  When [realloc] fails the capacity
    stays at 4096 although 5000 bytes were requested; and for a request
    above 2^63 the doubling wraps around to 0 and the loop never ends. *)
Lemma ensure_buffer_capacity_counterexample :
  ensure_buffer_capacity 64 exhausted_env [Byte NUL] 4096 5000 (mkWorld [] 0)
  = Next (None, 4096)
      (mkWorld [Stderr ("Failed to reallocate buffer to size 8192" ++ nl)] 1)
  /\ (forall fuel,
        ensure_buffer_capacity fuel quiet_env [Byte NUL] 4096 (HALF_SIZE + 1) (mkWorld [] 0)
        = Halt Hang (mkWorld [] 0)).
Proof.
  split; [reflexivity|].
  intros fuel. unfold ensure_buffer_capacity.
  change (HALF_SIZE + 1 >? 4096) with true.
  rewrite (grow_capacity_wraps 51 4096 (HALF_SIZE + 1) fuel);
    [reflexivity | lia | reflexivity | lia].
Qed.

(* ================================================================== *)
(** ** Allocation failures *)

(** C8 (as amended).  What each failed allocation does.  The initial
    [malloc] of the bundle buffer: one line without a size, exit with
    failure.  A failed [realloc] in [ensure_buffer_capacity]: one line
    with the size asked for, and the loop exits with failure.  The
    [calloc] of list mode: one line with the size, exit with failure.
    The [malloc] for one file's contents: one line with the file's
    path and no size; that file is skipped and the loop goes on with
    the remaining entries and the assembly untouched. *)
Theorem allocation_failures (fuel : nat) (env : Env) (d : string) (o : Options)
    (w : World) :
  (forall lower unordered upper,
     alloc_ok env (allocs w) INITIAL_BUFFER_SIZE = false ->
     bundle_mode fuel env d o lower unordered upper w
     = Halt (Exit EXIT_FAILURE)
         (log (allocated w) (Stderr ("Failed to allocate initial buffer" ++ nl))))
  /\ (forall buf capacity needed new_capacity,
        needed > capacity ->
        grow_capacity fuel capacity needed = Some new_capacity ->
        alloc_ok env (allocs w) new_capacity = false ->
        ensure_buffer_capacity fuel env buf capacity needed w
        = Next (None, capacity)
            (log (allocated w)
               (Stderr ("Failed to reallocate buffer to size "
                        ++ dec new_capacity ++ nl))))
  /\ (forall f rest a contents w1 capacity w2,
        read_file_contents env d (name f) w = Next (Some contents) w1 ->
        ensure_buffer_capacity fuel env (buffer a) (buffer_capacity a)
          (wrap_size (current_size a + strlen contents + 2)) w1
        = Next (None, capacity) w2 ->
        bundle_files fuel env d (f :: rest) a w = Halt (Exit EXIT_FAILURE) w2)
  /\ (forall total lower unordered upper,
        alloc_ok env (allocs w) (wrap_size total) = false ->
        list_mode env d o total lower unordered upper w
        = Halt (Exit EXIT_FAILURE)
            (log (allocated w)
               (Stderr ("Cannot allocate buffer of " ++ dec total ++ " byte(s)" ++ nl))))
  /\ (forall f rest a st_size data reason,
        lookup_file env (file_path d (name f)) = Opened st_size data reason ->
        alloc_ok env (allocs w) (wrap_size (st_size + 1)) = false ->
        bundle_files fuel env d (f :: rest) a w
        = bundle_files fuel env d rest a
            (log (allocated w)
               (Stderr ("Error allocating memory for file '"
                        ++ file_path d (name f) ++ "'" ++ nl)))).
Proof.
  split; [|split; [|split; [|split]]].
  - intros lower unordered upper H.
    unfold bundle_mode, bind, allocate. rewrite H. reflexivity.
  - intros buf capacity needed new_capacity Hn G H.
    unfold ensure_buffer_capacity.
    replace (needed >? capacity) with true
      by (symmetry; rewrite Z.gtb_ltb; apply Z.ltb_lt; lia).
    rewrite G. unfold bind, allocate. rewrite H. reflexivity.
  - intros f rest a contents w1 capacity w2 R E.
    simpl. unfold bind at 1. rewrite R.
    unfold bind at 1. unfold append_contents. unfold bind at 1. rewrite E. reflexivity.
  - intros total lower unordered upper H.
    unfold list_mode, list_mode_with, bind, allocate. rewrite H. reflexivity.
  - intros f rest a st_size data reason L H.
    simpl. unfold bind at 1. unfold read_file_contents. rewrite L.
    unfold bind at 1. unfold allocate. rewrite H. reflexivity.
Qed.

Lemma allocation_failures_witness :
  bundle_mode 64 exhausted_env "d" default_options [] [] [] (mkWorld [] 0)
  = Halt (Exit EXIT_FAILURE)
      (mkWorld [Stderr ("Failed to allocate initial buffer" ++ nl)] 1)
  /\ bundle_files 64 exhausted_env "d" [new_entry "fn.a"]
       (mkAssembly [Byte NUL] 4096 0) (mkWorld [] 0)
     = Next (mkAssembly [Byte NUL] 4096 0)
         (mkWorld [Stderr ("Error allocating memory for file 'd/fn.a'" ++ nl)] 1).
Proof.
  destruct (allocation_failures 64 exhausted_env "d" default_options (mkWorld [] 0))
    as (H1 & _ & _ & _ & H5).
  split.
  - apply H1. reflexivity.
  - exact (H5 (new_entry "fn.a") [] (mkAssembly [Byte NUL] 4096 0) 2 "hi" ""
              eq_refl eq_refl).
Defined.

(** C8 as stated fails: two of the allocation failures are reported
    without the attempted size.  With no memory to be had, a bundle run
    ends on a line that holds no digit at all, although 4096 bytes were
    asked for; and so does the line for a file's contents. *)
Lemma allocation_failure_counterexample :
  run 64 exhausted_env "scriptsort" ["d"; "--bundle"]
  = ([OpenDir "d"; Stderr ("Failed to allocate initial buffer" ++ nl)], Exit EXIT_FAILURE)
  /\ no_digit ("Failed to allocate initial buffer" ++ nl) = true
  /\ read_file_contents exhausted_env "d" "fn.a" (mkWorld [] 0)
     = Next None (mkWorld [Stderr ("Error allocating memory for file 'd/fn.a'" ++ nl)] 1)
  /\ no_digit ("Error allocating memory for file 'd/fn.a'" ++ nl) = true.
Proof. repeat split. Qed.

(* ================================================================== *)
(** ** Lists: filters, permutations and sorted lists *)

Section ListFacts.

Context {A : Type}.

Lemma Permutation_filter (p : A -> bool) (l l' : list A) :
  Permutation l l' -> Permutation (filter p l) (filter p l').
Proof.
  induction 1 as [|x l l' _ IH|x y l|l l' l'' _ IH1 _ IH2]; simpl.
  - constructor.
  - destruct (p x); [now constructor | exact IH].
  - destruct (p x), (p y); try reflexivity. apply perm_swap.
  - now transitivity (filter p l').
Qed.

Lemma filter_filter (p q : A -> bool) (l : list A) :
  filter p (filter q l) = filter (fun x => q x && p x) l.
Proof.
  induction l as [|x l IH]; simpl; [reflexivity|].
  destruct (q x); simpl; [destruct (p x); now rewrite IH | exact IH].
Qed.

Lemma StronglySorted_filter (R : A -> A -> Prop) (p : A -> bool) (l : list A) :
  StronglySorted R l -> StronglySorted R (filter p l).
Proof.
  induction 1 as [|x l S IH F]; simpl; [constructor|].
  destruct (p x); [|exact IH]. constructor; [exact IH|].
  rewrite Forall_forall in *. intros y Hy. apply F.
  now apply filter_In in Hy.
Qed.

(** A sorted list whose elements satisfying [p] come below the others
    is those elements followed by the others. *)
Lemma StronglySorted_split (R : A -> A -> Prop) (p : A -> bool) (l : list A) :
  StronglySorted R l ->
  (forall x y, In x l -> In y l -> R x y -> p y = true -> p x = true) ->
  l = (filter p l ++ filter (fun x => negb (p x)) l)%list.
Proof.
  induction 1 as [|x l S IH F]; intros D; simpl; [reflexivity|].
  assert (l = (filter p l ++ filter (fun x => negb (p x)) l)%list) as E.
  { apply IH. intros a b Ha Hb. apply D; now right. }
  destruct (p x) eqn:Px; simpl.
  - now rewrite <- E.
  - assert (filter p l = []) as N.
    { apply filter_none_in. intros y Hy.
      destruct (p y) eqn:Py; [|reflexivity].
      rewrite Forall_forall in F.
      rewrite (D x y (or_introl eq_refl) (or_intror Hy) (F y Hy) Py) in Px.
      discriminate. }
    rewrite N in *. simpl in *. now rewrite <- E.
Qed.

Lemma filter_or_disjoint (p q : A -> bool) (l : list A) :
  (forall x, In x l -> p x = true -> q x = false) ->
  Permutation (filter (fun x => p x || q x) l) (filter p l ++ filter q l).
Proof.
  induction l as [|x l IH]; intros D; simpl; [constructor|].
  assert (Permutation (filter (fun x => p x || q x) l) (filter p l ++ filter q l)) as P
    by (apply IH; intros y Hy; apply D; now right).
  destruct (p x) eqn:Px; simpl.
  - rewrite (D x (or_introl eq_refl) Px). now constructor.
  - destruct (q x); [|exact P].
    rewrite P. apply Permutation_middle.
Qed.

Lemma StronglySorted_map {B : Type} (R : A -> A -> Prop) (S : B -> B -> Prop)
    (f : A -> B) (l : list A) :
  (forall x y, In x l -> In y l -> R x y -> S (f x) (f y)) ->
  StronglySorted R l -> StronglySorted S (map f l).
Proof.
  intros H Hs. induction Hs as [|x l Hs IH F]; simpl; [constructor|].
  constructor.
  - apply IH. intros a b Ha Hb. apply H; now right.
  - rewrite Forall_forall in *. intros y Hy.
    apply in_map_iff in Hy as (z & <- & Hz).
    apply H; [now left | now right | now apply F].
Qed.

End ListFacts.

(* ================================================================== *)
(** ** List mode *)

(** *** Joining and splitting *)

Lemma split_from_field j n : forall field rest,
  free_of j n = true ->
  split_from j (n ++ String j rest) field = (field ++ n) :: split_from j rest "".
Proof.
  induction n as [|c n IH]; intros field rest F.
  - simpl. rewrite Z.eqb_refl. now rewrite append_nil_r.
  - simpl in F. apply andb_prop in F as [Fc F]. apply negb_true_iff in Fc.
    change (split_from j (String c n ++ String j rest) field)
      with (if code c =? code j then field :: split_from j (n ++ String j rest) ""
            else split_from j (n ++ String j rest) (field ++ chr c)).
    rewrite Fc, (IH _ _ F). f_equal. rewrite append_assoc. reflexivity.
Qed.

Lemma split_on_concat_names j names :
  Forall (fun n => free_of j n = true) names ->
  split_on j (concat_names j names) = names.
Proof.
  unfold split_on. induction 1 as [|n names F _ IH]; [reflexivity|].
  change (concat_names j (n :: names)) with (n ++ String j (concat_names j names)).
  rewrite (split_from_field j n "" _ F), IH. reflexivity.
Qed.

Lemma concat_names_app j l1 l2 :
  concat_names j (l1 ++ l2) = concat_names j l1 ++ concat_names j l2.
Proof.
  induction l1 as [|n l1 IH]; simpl; [reflexivity|].
  now rewrite IH, !append_assoc.
Qed.

Lemma append_names_concat j files : forall buf,
  append_names j files buf = buf ++ concat_names j (map name files).
Proof.
  unfold append_names.
  induction files as [|f files IH]; intros buf; simpl.
  - now rewrite append_nil_r.
  - rewrite IH, !append_assoc. reflexivity.
Qed.

(** *** The arrays in terms of the names *)

Lemma bucket_lower c d :
  0 < c <= INT_MAX ->
  bucket_eqb (categorize c (extract_order_number d)) Lower = is_low c d.
Proof.
  intros Hc.
  destruct (categorize_spec c _ Hc (extract_order_number_range d)) as (HL & _ & _).
  unfold is_low.
  destruct (categorize c (extract_order_number d)) eqn:E; simpl.
  - symmetry. apply andb_true_intro. split; [apply Z.leb_le | apply Z.ltb_lt]; tauto.
  - symmetry. apply not_true_is_false. intros H. apply andb_prop in H as [H1 H2].
    apply Z.leb_le in H1. apply Z.ltb_lt in H2.
    assert (Upper = Lower) by (apply HL; lia). discriminate.
  - symmetry. apply not_true_is_false. intros H. apply andb_prop in H as [H1 H2].
    apply Z.leb_le in H1. apply Z.ltb_lt in H2.
    assert (Unordered = Lower) by (apply HL; lia). discriminate.
Qed.

Lemma bucket_upper c d :
  0 < c <= INT_MAX ->
  bucket_eqb (categorize c (extract_order_number d)) Upper
  = is_unordered d || is_high c d.
Proof.
  intros Hc.
  destruct (categorize_spec c _ Hc (extract_order_number_range d)) as (_ & HU & HN).
  unfold is_unordered, is_high.
  destruct (categorize c (extract_order_number d)) eqn:E; simpl.
  - symmetry. apply not_true_is_false. intros H. apply orb_prop in H.
    assert (Lower = Upper) by (apply HU; destruct H as [H|H];
      [left; now apply Z.eqb_eq | right; now apply Z.leb_le]). discriminate.
  - symmetry. destruct (proj1 HU eq_refl) as [H|H].
    + apply orb_true_intro. left. now apply Z.eqb_eq.
    + apply orb_true_intro. right. now apply Z.leb_le.
  - congruence.
Qed.

Lemma routed_lower_names c entries :
  0 < c <= INT_MAX ->
  filter (routed c Lower) entries = filter (is_low c) (non_skipped entries).
Proof.
  intros Hc. unfold non_skipped. rewrite filter_filter. apply filter_ext.
  intros d. unfold routed. now rewrite bucket_lower.
Qed.

Lemma routed_upper_names c entries :
  0 < c <= INT_MAX ->
  filter (routed c Upper) entries
  = filter (fun d => is_unordered d || is_high c d) (non_skipped entries).
Proof.
  intros Hc. unfold non_skipped. rewrite filter_filter. apply filter_ext.
  intros d. unfold routed. now rewrite bucket_upper.
Qed.

Lemma new_entry_name d : (String.length d <= 255)%nat -> name (new_entry d) = d.
Proof. intros H. unfold new_entry. simpl. now apply strncpy_all. Qed.

Lemma unordered_not_high c d : 0 < c -> is_unordered d = true -> is_high c d = false.
Proof.
  unfold is_unordered, is_high. intros Hc H. apply Z.eqb_eq in H.
  apply Z.leb_gt. lia.
Qed.

Lemma new_entry_faithful d : dirent_name d -> faithful (new_entry d).
Proof.
  intros [N L]. unfold faithful. rewrite (new_entry_name d L).
  split; [reflexivity|]. split; [|exact N].
  unfold new_entry. simpl. now rewrite strncpy_all.
Qed.

Lemma key_le_name_le a b :
  faithful a -> faithful b -> key_le a b -> name_le (name a) (name b).
Proof.
  intros (Oa & _ & Na) (Ob & _ & Nb) [H|[H S]]; unfold name_le; rewrite <- Oa, <- Ob.
  - now left.
  - right. split; [exact H|]. unfold String.leb.
    rewrite <- (strcmp_compare _ _ Na Nb).
    destruct (strcmp (name a) (name b) ?= 0) eqn:C; try reflexivity.
    apply Z.compare_gt_iff in C. lia.
Qed.

Lemma map_name_new_entry l :
  Forall dirent_name l -> map name (map new_entry l) = l.
Proof.
  induction 1 as [|d l [_ L] _ IH]; simpl; [reflexivity|].
  now rewrite IH, strncpy_all.
Qed.

Lemma Forall_filter {A} (P : A -> Prop) (p : A -> bool) (l : list A) :
  Forall P l -> Forall P (filter p l).
Proof.
  rewrite !Forall_forall. intros H x Hx. apply H. now apply filter_In in Hx.
Qed.

(** A sorted array of faithful entries, as names. *)
Lemma sorted_array_names (lo hi : Z) (sel : string -> bool) (names : list string) :
  hi - lo <= INT_MAX ->
  Forall dirent_name names ->
  (forall d, In d names -> sel d = true -> lo <= extract_order_number d <= hi) ->
  let sorted := qsort compare_ordered_files (map new_entry (filter sel names)) in
  Permutation (map name sorted) (filter sel names)
  /\ StronglySorted name_le (map name sorted)
  /\ Forall faithful sorted.
Proof.
  intros Hspan Hn Hsel sorted.
  assert (Forall dirent_name (filter sel names)) as Hf by now apply Forall_filter.
  assert (forall e, In e sorted -> exists d, e = new_entry d /\ In d (filter sel names)) as Hin.
  { intros e He. apply (Permutation_in _ (qsort_perm _ _)) in He.
    apply in_map_iff in He as (d & <- & Hd). now exists d. }
  assert (Forall faithful sorted) as Hfaith.
  { apply Forall_forall. intros e He. destruct (Hin e He) as (d & -> & Hd).
    apply new_entry_faithful. rewrite Forall_forall in Hf. now apply Hf. }
  split; [|split; [|exact Hfaith]].
  - apply Permutation_trans with (map name (map new_entry (filter sel names))).
    + apply Permutation_map, qsort_perm.
    + now rewrite map_name_new_entry.
  - apply (StronglySorted_map key_le).
    + intros x y Hx Hy. rewrite Forall_forall in Hfaith. apply key_le_name_le; auto.
    + apply (qsort_sorted lo hi Hspan). apply Forall_forall.
      intros e He. apply in_map_iff in He as (d & <- & Hd).
      pose proof Hd as Hd'. apply filter_In in Hd' as [Hd1 Hd2].
      rewrite Forall_forall in Hn. destruct (Hn d Hd1) as [N L].
      split; [exact (Hsel d Hd1 Hd2)|]. now rewrite new_entry_name.
Qed.

(** The order of the output, given names within the capacity and no
    absent order number next to [INT_MAX]: the low names ascending, the
    unordered names ascending, the high names ascending. *)
Lemma output_order_names (c : Z) (entries : list string) :
  let names := non_skipped entries in
  0 < c <= INT_MAX ->
  Forall dirent_name names ->
  Z.of_nat (List.length (filter (is_low c) names)) <= MAX_FILES ->
  Z.of_nat (List.length (filter is_unordered names)
            + List.length (filter (is_high c) names)) <= MAX_FILES ->
  Forall (fun d => extract_order_number d < INT_MAX) names
  \/ Forall (fun d => 0 <= extract_order_number d) names ->
  exists Llow Lun Lhigh,
    map name (output_order c entries) = (Llow ++ Lun ++ Lhigh)%list
    /\ Permutation Llow (filter (is_low c) names)
    /\ Permutation Lun (filter is_unordered names)
    /\ Permutation Lhigh (filter (is_high c) names)
    /\ StronglySorted name_le Llow
    /\ StronglySorted (fun a b => String.leb a b = true) Lun
    /\ StronglySorted name_le Lhigh
    /\ Forall faithful (output_order c entries).
Proof.
  intros names Hc Hn Hlow Hup Hov. pose proof max_files_eq as M. unfold MAX_FILES in *.
  set (up := fun d => is_unordered d || is_high c d).
  assert (Permutation (filter up names)
            (filter is_unordered names ++ filter (is_high c) names)) as Pup.
  { apply filter_or_disjoint. intros d _. apply unordered_not_high. lia. }
  assert (lower_files (scan c entries) = map new_entry (filter (is_low c) names)) as EL.
  { change (lower_files (scan c entries)) with (array_of Lower (scan c entries)).
    rewrite scan_array, routed_lower_names by exact Hc.
    apply firstn_all2. rewrite length_map. fold names. lia. }
  assert (upper_files (scan c entries) = map new_entry (filter up names)) as EU.
  { change (upper_files (scan c entries)) with (array_of Upper (scan c entries)).
    rewrite scan_array, routed_upper_names by exact Hc.
    apply firstn_all2. rewrite length_map. fold names. fold up.
    rewrite (Permutation_length Pup), length_app. lia. }
  assert (unordered_files (scan c entries) = []) as EN
    by now apply unordered_files_empty.
  unfold output_order. rewrite EL, EU, EN. simpl qsort at 2. rewrite app_nil_l.
  destruct (sorted_array_names 0 (c - 1) (is_low c) names) as (PL & SL & FL);
    [lia | exact Hn | |].
  { intros d _ H. unfold is_low in H. apply andb_prop in H as [H1 H2].
    apply Z.leb_le in H1. apply Z.ltb_lt in H2. lia. }
  assert (exists lo hi, hi - lo <= INT_MAX
            /\ forall d, In d names -> up d = true -> lo <= extract_order_number d <= hi)
    as (lo & hi & Hspan & Hrange).
  { destruct Hov as [H|H]; rewrite Forall_forall in H.
    - exists (-1), (INT_MAX - 1). split; [lia|]. intros d Hd _.
      pose proof (extract_order_number_range d). specialize (H d Hd). lia.
    - exists 0, INT_MAX. split; [lia|]. intros d Hd _.
      pose proof (extract_order_number_range d). specialize (H d Hd). lia. }
  destruct (sorted_array_names lo hi up names Hspan Hn Hrange) as (PU & SU & FU).
  set (L := qsort compare_ordered_files (map new_entry (filter (is_low c) names))) in *.
  set (U := qsort compare_ordered_files (map new_entry (filter up names))) in *.
  exists (map name L), (filter is_unordered (map name U)), (filter (is_high c) (map name U)).
  assert (forall d, In d (map name U) -> up d = true) as Uin.
  { intros d Hd. apply (Permutation_in _ PU) in Hd. now apply filter_In in Hd. }
  split; [|split; [exact PL|split; [|split; [|split; [exact SL|split; [|split]]]]]].
  - rewrite map_app. f_equal.
    rewrite (StronglySorted_split name_le is_unordered (map name U) SU) at 1.
    + f_equal. apply filter_ext_in. intros d Hd. specialize (Uin d Hd). unfold up in Uin.
      destruct (is_unordered d) eqn:E; simpl in *;
        [now rewrite (unordered_not_high c d) by (auto; lia) | now rewrite Uin].
    + intros x y _ _ Hxy Hy. unfold is_unordered in *. apply Z.eqb_eq in Hy.
      apply Z.eqb_eq. pose proof (extract_order_number_range x) as Rx.
      destruct Hxy as [H|[H _]]; lia.
  - rewrite (Permutation_filter is_unordered _ _ PU), filter_filter.
    erewrite filter_ext; [reflexivity|]. intros d. unfold up.
    destruct (is_unordered d), (is_high c d); reflexivity.
  - rewrite (Permutation_filter (is_high c) _ _ PU), filter_filter.
    erewrite filter_ext; [reflexivity|]. intros d. unfold up.
    destruct (is_unordered d) eqn:E; simpl;
      [now rewrite (unordered_not_high c d) by (auto; lia) | now destruct (is_high c d)].
  - replace (filter is_unordered (map name U))
      with (map (fun d : string => d) (filter is_unordered (map name U)))
      by apply map_id.
    apply (StronglySorted_map name_le); [|now apply StronglySorted_filter].
    intros x y Hx Hy [H|[_ H]]; [|exact H].
    apply filter_In in Hx as [_ Hx]. apply filter_In in Hy as [_ Hy].
    unfold is_unordered in *. apply Z.eqb_eq in Hx, Hy. lia.
  - now apply StronglySorted_filter.
  - apply Forall_app. split; assumption.
Qed.

(** The cutoff the loop leaves is a positive [int]. *)
Lemma parse_flags_cutoff_range n : forall args o w o' w',
  (List.length args <= n)%nat ->
  0 < cutoff_count o <= INT_MAX ->
  parse_flags args o w = Next o' w' ->
  0 < cutoff_count o' <= INT_MAX.
Proof.
  induction n as [|n IH]; intros [|a rest] o w o' w' L Ho P; simpl in L; try lia;
    try (injection P as <- _; exact Ho).
  rewrite parse_flags_step in P.
  destruct (is_init a); [eapply IH; [| |exact P]; [lia | exact Ho]|].
  destruct (is_bundle a); [eapply IH; [| |exact P]; [lia | exact Ho]|].
  destruct (is_debug a); [eapply IH; [| |exact P]; [lia | exact Ho]|].
  destruct (is_cutoff a); [|eapply IH; [| |exact P]; [lia | exact Ho]].
  destruct rest as [|value rest']; [injection P as <- _; exact Ho|].
  destruct (Z.leb_spec (atoi value) 0) as [Le|Gt]; [discriminate|].
  apply (IH rest' (set_cutoff o (atoi value)) w o' w'); [simpl in L; lia | | exact P].
  unfold set_cutoff. simpl.
  pose proof (wrap_int_range (fst (strtol value))) as Rg. unfold atoi in *.
  rewrite to_uint_id; unfold INT_MIN, INT_MAX, UINT_MAX in *; lia.
Qed.

Lemma list_mode_run_text (fuel : nat) env prog d flags o entries :
  parse_flags flags default_options (mkWorld [] 0) = Next o (mkWorld [] 0) ->
  bundle o = false ->
  opendir env d = inr entries ->
  alloc_ok env 0 (wrap_size (total_bytesize (scan (cutoff_count o) entries))) = true ->
  run fuel env prog (d :: flags)
  = ([OpenDir d;
      Stdout (list_stdout o d
                (concat_names (if init o then SP else LF)
                   (map name (output_order (cutoff_count o) entries))))],
     Exit EXIT_SUCCESS).
Proof.
  intros P B O A. unfold run, main, main_with. unfold bind at 1. rewrite P.
  unfold bind at 1. unfold emit at 1. rewrite O, B.
  unfold list_mode, list_mode_with, bind, allocate. cbn [trace allocs]. rewrite A. cbn [negb].
  unfold emit, ret. cbn [trace allocs app].
  change (sprintf_names appending) with append_names.
  rewrite !append_names_concat. unfold output_order.
  rewrite !map_app, !concat_names_app, !append_assoc. reflexivity.
Qed.

(** With a library that appends, the loops are [append_names] and the
    run is the one of [run]. *)
Lemma sprintf_names_appends (lib : Libc) j files :
  (forall buffer name joiner,
     sprintf_self lib buffer name joiner = buffer ++ name ++ chr joiner) ->
  forall buf, sprintf_names lib j files buf = append_names j files buf.
Proof.
  intros A. unfold sprintf_names, append_names.
  induction files as [|f files IH]; intros buf; simpl; [reflexivity|].
  now rewrite A, IH.
Qed.

Lemma list_mode_with_appends (lib : Libc) env d o total lower unordered upper w :
  (forall buffer name joiner,
     sprintf_self lib buffer name joiner = buffer ++ name ++ chr joiner) ->
  list_mode_with lib env d o total lower unordered upper w
  = list_mode env d o total lower unordered upper w.
Proof.
  intros A. unfold list_mode, list_mode_with, bind, allocate.
  destruct (alloc_ok env (allocs w) (wrap_size total)); cbn [negb]; [|reflexivity].
  cbv zeta. rewrite !(sprintf_names_appends lib) by exact A. reflexivity.
Qed.

Lemma bind_ext {A B} (m : M A) (k k' : A -> M B) (w : World) :
  (forall a w', k a w' = k' a w') -> bind m k w = bind m k' w.
Proof. intros E. unfold bind. destruct (m w); [apply E | reflexivity]. Qed.

Lemma run_with_appends (lib : Libc) (fuel : nat) env prog args :
  (forall buffer name joiner,
     sprintf_self lib buffer name joiner = buffer ++ name ++ chr joiner) ->
  run_with lib fuel env prog args = run fuel env prog args.
Proof.
  intros A. unfold run_with, run, main.
  replace (main_with lib fuel env prog args (mkWorld [] 0))
    with (main_with appending fuel env prog args (mkWorld [] 0)); [reflexivity|].
  destruct args as [|d flags]; [reflexivity|].
  unfold main_with. apply bind_ext. intros o w. apply bind_ext. intros _ w'.
  destruct (opendir env d) as [reason|entries]; [reflexivity|].
  cbv zeta. destruct (bundle o); [reflexivity|].
  symmetry. apply (list_mode_with_appends lib). exact A.
Qed.

(** C3 (as amended).  The list is built by [sprintf] calls whose
    destination is also their first source, which C leaves undefined;
    the statement is for a C library with which such a call appends.
    Then, in list mode, for a directory whose names hold no joiner
    byte, with at most 1000 entries below the cutoff, at most 1000
    entries that are unordered or at or above the cutoff, and no
    unordered entry next to an entry numbered [INT_MAX]: the run opens
    the directory, writes one text to standard output and exits with
    success; the text, split on the joiner, is the low names ascending
    by number then name, then the unordered names ascending by name,
    then the high names ascending by number then name, each group a
    rearrangement of the names of its kind, so that no name is lost or
    repeated.  In particular the directory of the usage text, in
    whatever order it is read, prints as in the usage text. *)
Theorem list_mode_output (lib : Libc) :
  (forall buffer name joiner,
     sprintf_self lib buffer name joiner = buffer ++ name ++ chr joiner) ->
  (forall (fuel : nat) env prog d flags o entries,
     let names := non_skipped entries in
     let c := cutoff_count o in
     let joiner := if init o then SP else LF in
     parse_flags flags default_options (mkWorld [] 0) = Next o (mkWorld [] 0) ->
     bundle o = false ->
     opendir env d = inr entries ->
     alloc_ok env 0 (wrap_size (total_bytesize (scan c entries))) = true ->
     Forall dirent_name names ->
     Forall (fun n => free_of joiner n = true) names ->
     Z.of_nat (List.length (filter (is_low c) names)) <= MAX_FILES ->
     Z.of_nat (List.length (filter is_unordered names)
               + List.length (filter (is_high c) names)) <= MAX_FILES ->
     Forall (fun n => extract_order_number n < INT_MAX) names
     \/ Forall (fun n => 0 <= extract_order_number n) names ->
     exists text Llow Lun Lhigh,
       run_with lib fuel env prog (d :: flags)
       = ([OpenDir d; Stdout (list_stdout o d text)], Exit EXIT_SUCCESS)
       /\ text = concat_names joiner (Llow ++ Lun ++ Lhigh)
       /\ split_on joiner text = (Llow ++ Lun ++ Lhigh)%list
       /\ Permutation Llow (filter (is_low c) names)
       /\ Permutation Lun (filter is_unordered names)
       /\ Permutation Lhigh (filter (is_high c) names)
       /\ StronglySorted name_le Llow
       /\ StronglySorted (fun a b => String.leb a b = true) Lun
       /\ StronglySorted name_le Lhigh)
  /\ (forall (fuel : nat) env prog d entries,
        opendir env d = inr entries ->
        Permutation entries ("." :: ".." :: usage_example) ->
        (forall n, alloc_ok env 0 n = true) ->
        run_with lib fuel env prog [d]
        = ([OpenDir d;
            Stdout ("ordered.01.first" ++ nl ++ "fn.a" ++ nl ++ "fn.b" ++ nl
                    ++ "ordered.52.last" ++ nl)],
           Exit EXIT_SUCCESS)).
Proof.
  intros Lib.
  refine ((fun G => conj G _) _).
  - (* the directory of the usage text *)
    intros fuel env prog d entries O P A.
    assert (Permutation (non_skipped entries) usage_example) as Pn
      by exact (Permutation_filter _ _ _ P).
    assert (forall p, Permutation (filter p (non_skipped entries)) (filter p usage_example))
      as Pf by (intros p; now apply Permutation_filter).
    destruct (G fuel env prog d [] default_options entries eq_refl eq_refl O (A _))
      as (text & Llow & Lun & Lhigh & R & T & _ & PL & PU & PH & _ & SU & _).
    + apply (Permutation_Forall (Permutation_sym Pn)).
      repeat constructor; simpl; lia.
    + apply (Permutation_Forall (Permutation_sym Pn)). repeat constructor.
    + rewrite (Permutation_length (Pf _)). vm_compute. discriminate.
    + rewrite !(Permutation_length (Pf _)). vm_compute. discriminate.
    + left. apply (Permutation_Forall (Permutation_sym Pn)).
      repeat constructor.
    + rewrite R, T.
      pose proof (Permutation_sym (Permutation_trans PL (Pf (is_low 50)))) as PL'.
      pose proof (Permutation_sym (Permutation_trans PU (Pf is_unordered))) as PU'.
      pose proof (Permutation_sym (Permutation_trans PH (Pf (is_high 50)))) as PH'.
      change (filter (is_low 50) usage_example) with ["ordered.01.first"] in PL'.
      change (filter is_unordered usage_example) with ["fn.a"; "fn.b"] in PU'.
      change (filter (is_high 50) usage_example) with ["ordered.52.last"] in PH'.
      apply Permutation_length_1_inv in PL', PH'.
      apply Permutation_length_2_inv in PU'.
      assert (Lun = ["fn.a"; "fn.b"]) as ->.
      { destruct PU' as [E|E]; [exact E|]. subst Lun.
        apply StronglySorted_inv in SU as [_ SU]. apply Forall_inv in SU.
        discriminate. }
      subst Llow Lhigh. reflexivity.
  - (* every directory *)
    intros fuel env prog d flags o entries names c joiner P B O A Hn Hj Hlow Hup Hov.
    assert (0 < c <= INT_MAX) as Hc.
    { apply (parse_flags_cutoff_range (List.length flags) flags default_options
               (mkWorld [] 0) o (mkWorld [] 0) (le_n _)); [|exact P].
      unfold INT_MAX. simpl. lia. }
    destruct (output_order_names c entries Hc Hn Hlow Hup Hov)
      as (Llow & Lun & Lhigh & E & PL & PU & PH & SL & SU & SH & _).
    exists (concat_names joiner (Llow ++ Lun ++ Lhigh)), Llow, Lun, Lhigh.
    split; [|split; [reflexivity|split; [|tauto]]].
    + rewrite (run_with_appends lib fuel env prog (d :: flags) Lib).
      rewrite (list_mode_run_text fuel env prog d flags o entries P B O A).
      fold c joiner. now rewrite E.
    + apply split_on_concat_names. fold names in PL, PU, PH.
      rewrite Forall_forall in *. intros x Hx. apply Hj.
      apply in_app_or in Hx as [Hx|Hx]; [|apply in_app_or in Hx as [Hx|Hx]].
      * apply (Permutation_in _ PL) in Hx. now apply filter_In in Hx.
      * apply (Permutation_in _ PU) in Hx. now apply filter_In in Hx.
      * apply (Permutation_in _ PH) in Hx. now apply filter_In in Hx.
Qed.

Lemma list_mode_output_witness :
  exists text Llow Lun Lhigh,
    run_with appending 0 quiet_env "scriptsort" ["d"; "--init"]
    = ([OpenDir "d"; Stdout (list_stdout (mkOptions 50 true false false) "d" text)],
       Exit EXIT_SUCCESS)
    /\ split_on SP text = (Llow ++ Lun ++ Lhigh)%list
    /\ Permutation Lun ["fn.b"; "fn.a"].
Proof.
  destruct (list_mode_output appending) as [G _]; [intros; reflexivity|].
  destruct (G O quiet_env "scriptsort" "d" ["--init"]
              (mkOptions 50 true false false)
              ["."; ".."; "fn.b"; "ordered.52.last"; "ordered.01.first"; "fn.a"])
    as (text & Llow & Lun & Lhigh & R & _ & S & _ & PU & _).
  - reflexivity.
  - reflexivity.
  - reflexivity.
  - reflexivity.
  - change (Forall dirent_name ["fn.b"; "ordered.52.last"; "ordered.01.first"; "fn.a"]).
    repeat constructor; simpl; lia.
  - change (Forall (fun n => free_of SP n = true)
              ["fn.b"; "ordered.52.last"; "ordered.01.first"; "fn.a"]).
    repeat constructor.
  - vm_compute. discriminate.
  - vm_compute. discriminate.
  - left.
    change (Forall (fun n => extract_order_number n < INT_MAX)
              ["fn.b"; "ordered.52.last"; "ordered.01.first"; "fn.a"]).
    repeat constructor.
  - exists text, Llow, Lun, Lhigh. split; [exact R|]. split; [exact S | exact PU].
Defined.

(** C3 as stated fails, in two ways.  The output is split on the
    joiner, and a file name may hold the joiner: with a library that
    appends, the single name [a<LF>b] comes back from list mode as the
    two names [a] and [b], and under [--init], where the joiner is a
    space, [my script] comes back as [my] and [script].  And the list
    depends on the library: with the checked [sprintf], which empties
    its destination first, the directory of the usage text prints as
    its last name alone, three of the four names being lost. *)
Lemma list_mode_joiner_counterexample :
  non_skipped ["."; ".."; line_feed_name] = [line_feed_name]
  /\ run_with appending 0 odd_names_env "scriptsort" ["lf"]
     = ([OpenDir "lf"; Stdout (line_feed_name ++ nl)], Exit EXIT_SUCCESS)
  /\ split_on LF (line_feed_name ++ nl) = ["a"; "b"]
  /\ split_on LF (line_feed_name ++ nl) <> [line_feed_name]
  /\ run_with appending 0 odd_names_env "scriptsort" ["sp"; "--init"]
     = ([OpenDir "sp";
         Stdout (list_stdout (mkOptions 50 true false false) "sp" "my script ")],
        Exit EXIT_SUCCESS)
  /\ split_on SP "my script " = ["my"; "script"]
  /\ non_skipped ["."; ".."; "fn.b"; "ordered.52.last"; "ordered.01.first"; "fn.a"]
     = ["fn.b"; "ordered.52.last"; "ordered.01.first"; "fn.a"]
  /\ run_with clearing 0 quiet_env "scriptsort" ["d"]
     = ([OpenDir "d"; Stdout ("ordered.52.last" ++ nl)], Exit EXIT_SUCCESS)
  /\ split_on LF ("ordered.52.last" ++ nl) = ["ordered.52.last"].
Proof.
  split; [reflexivity|]. split; [reflexivity|]. split; [reflexivity|].
  split; [discriminate|]. split; [reflexivity|]. split; [reflexivity|].
  split; [reflexivity|]. split; reflexivity.
Qed.

(* ================================================================== *)
(** ** Bundle mode *)

(** *** Memory *)








Lemma substring_length n s :
  String.length (substring 0 n s) = Nat.min n (String.length s).
Proof.
  revert n. induction s as [|c s IH]; intros [|n]; simpl; try reflexivity.
  now rewrite IH.
Qed.

(** *** Files *)

Lemma stdout_of_app t1 t2 : stdout_of (t1 ++ t2) = stdout_of t1 ++ stdout_of t2.
Proof.
  induction t1 as [|e t1 IH]; simpl; [reflexivity|].
  destruct e; rewrite IH; [now rewrite append_assoc | reflexivity | reflexivity].
Qed.


Lemma file_contents_length env path data :
  sizes_ok env -> file_contents env path = Some data -> 0 <= strlen data <= LONG_MAX.
Proof.
  unfold file_contents. intros Hs H.
  destruct (lookup_file env path) as [|?|st raw reason] eqn:E; try discriminate.
  specialize (Hs _ _ _ _ E).
  destruct (Z.leb_spec st (strlen raw)) as [Le|Gt]; [|discriminate].
  injection H as <-. unfold strlen in *. rewrite substring_length. lia.
Qed.

(** *** Growth, with what the loop needs to know *)


(** *** The invariant of the assembly *)





Lemma strlen_append a b : strlen (a ++ b) = strlen a + strlen b.
Proof. unfold strlen. rewrite length_append. lia. Qed.










(* ================================================================== *)
(** * Further properties of the code *)

(** ** ensure_buffer_capacity and read_file_contents *)

Lemma grow_capacity_enough fuel : forall capacity needed new_capacity,
  grow_capacity fuel capacity needed = Some new_capacity ->
  needed <= new_capacity /\ (needed <= capacity -> new_capacity = capacity).
Proof.
  induction fuel as [|fuel IH]; intros capacity needed new_capacity; simpl;
    destruct (Z.ltb_spec capacity needed) as [Lt|Ge]; intros H;
    try discriminate; try (injection H as <-; split; [lia | reflexivity]).
  split; [|lia]. now apply (IH _ _ _ H).
Qed.

(** X1.  Whenever [ensure_buffer_capacity] returns a buffer, whatever
    the sizes and the fuel: the old cells are all still there, in
    front; the buffer fills the capacity reported; that capacity is at
    least the size asked for and at least the old capacity; and nothing
    was written to any stream. *)
Theorem ensure_buffer_capacity_keeps_contents (fuel : nat) (env : Env)
    (buf : list cell) (capacity needed : Z) (w : World)
    (buf' : list cell) (capacity' : Z) (w' : World) :
  Z.of_nat (List.length buf) = capacity ->
  ensure_buffer_capacity fuel env buf capacity needed w
  = Next (Some buf', capacity') w' ->
  (exists ext, buf' = (buf ++ ext)%list)
  /\ Z.of_nat (List.length buf') = capacity'
  /\ needed <= capacity'
  /\ capacity <= capacity'
  /\ trace w' = trace w.
Proof.
  intros L. unfold ensure_buffer_capacity.
  destruct (Z.ltb_spec capacity needed) as [Lt|Ge].
  - replace (needed >? capacity) with true
      by (symmetry; rewrite Z.gtb_ltb; apply Z.ltb_lt; lia).
    destruct (grow_capacity fuel capacity needed) as [nc|] eqn:G;
      [|intros H; discriminate].
    destruct (grow_capacity_enough _ _ _ _ G) as [N _].
    unfold bind, allocate.
    destruct (alloc_ok env (allocs w) nc); cbn [negb]; intros H;
      [|discriminate].
    injection H as <- <- <-. cbn [trace].
    unfold realloc_cells. rewrite firstn_all2 by lia.
    split; [eexists; reflexivity|].
    split; [rewrite length_app, repeat_length; lia|].
    split; [lia|]. split; [lia | reflexivity].
  - replace (needed >? capacity) with false
      by (symmetry; rewrite Z.gtb_ltb; apply Z.ltb_ge; lia).
    intros H. injection H as <- <- <-.
    split; [exists []; now rewrite app_nil_r|].
    split; [exact L|]. split; [lia|]. split; [lia | reflexivity].
Qed.

Lemma ensure_buffer_capacity_keeps_contents_witness :
  exists ext,
    (Byte "a" :: repeat Junk 4095 ++ repeat Junk 4096)%list
    = ((Byte "a" :: repeat Junk 4095) ++ ext)%list.
Proof.
  apply (ensure_buffer_capacity_keeps_contents 64 quiet_env
           (Byte "a" :: repeat Junk 4095) 4096 5000 (mkWorld [] 0)
           (Byte "a" :: repeat Junk 4095 ++ repeat Junk 4096) 8192 (mkWorld [] 1)).
  - vm_compute. reflexivity.
  - vm_compute. reflexivity.
Defined.

(** X2.  [read_file_contents] never ends the run.  Either it returns
    the file's bytes, exactly [st_size] of them, having made its one
    allocation and written nothing; or it returns the null pointer
    after exactly one line on standard error, which names the path
    between quotes. *)
Theorem read_file_contents_outcome (env : Env) (d nm : string) (w : World) :
  (exists data st_size raw reason,
     lookup_file env (file_path d nm) = Opened st_size raw reason
     /\ strlen data = wrap_size st_size
     /\ data = substring 0 (Z.to_nat st_size) raw
     /\ read_file_contents env d nm w = Next (Some data) (allocated w))
  \/ (exists message before after,
        message = before ++ "'" ++ file_path d nm ++ "'" ++ after
        /\ (read_file_contents env d nm w = Next None (log w (Stderr message))
            \/ read_file_contents env d nm w
               = Next None (log (allocated w) (Stderr message)))).
Proof.
  unfold read_file_contents.
  destruct (lookup_file env (file_path d nm)) as [reason|reason|st raw reason] eqn:E.
  - right. exists ("Error opening file '" ++ file_path d nm ++ "': " ++ reason ++ nl),
      "Error opening file ", (": " ++ reason ++ nl).
    split; [|left; reflexivity].
    reflexivity.
  - right. exists ("Error getting file size for '" ++ file_path d nm ++ "': " ++ reason ++ nl),
      "Error getting file size for ", (": " ++ reason ++ nl).
    split; [|left; reflexivity].
    reflexivity.
  - unfold bind, allocate.
    destruct (alloc_ok env (allocs w) (wrap_size (st + 1))); cbn [negb].
    + destruct (strlen (substring 0 (Z.to_nat st) raw) =? wrap_size st) eqn:R; cbn [negb].
      * left. exists (substring 0 (Z.to_nat st) raw), st, raw, reason.
        apply Z.eqb_eq in R. repeat split; auto.
      * right. exists ("Error reading file '" ++ file_path d nm ++ "': " ++ reason ++ nl),
          "Error reading file ", (": " ++ reason ++ nl).
        split; [|right; reflexivity].
        reflexivity.
    + right. exists ("Error allocating memory for file '" ++ file_path d nm ++ "'" ++ nl),
        "Error allocating memory for file ", nl.
      split; [|right; reflexivity].
      reflexivity.
Qed.

(** ** The comparators as orders *)

(** X3.  On entries whose order numbers span at most [INT_MAX] (those
    of the lower array, all of them between 0 and [INT_MAX], are such)
    and whose names are C strings, [compare_ordered_files] is the
    comparator of a total order, as [qsort] requires: swapping the
    arguments negates the result, a zero result means the same number
    and the same name, and [<= 0] is transitive. *)
Theorem compare_ordered_files_total_order (lo hi : Z) (a b c : FileEntry) :
  hi - lo <= INT_MAX ->
  within lo hi a -> within lo hi b -> within lo hi c ->
  compare_ordered_files b a = - compare_ordered_files a b
  /\ (compare_ordered_files a b = 0 -> order_num a = order_num b /\ name a = name b)
  /\ (compare_ordered_files a b <= 0 -> compare_ordered_files b c <= 0 ->
      compare_ordered_files a c <= 0)
  /\ (compare_ordered_files a b <= 0 \/ compare_ordered_files b a <= 0).
Proof.
  intros span Ha Hb Hc.
  assert (forall x y, within lo hi x -> within lo hi y ->
            order_num x <> order_num y ->
            compare_ordered_files x y = order_num x - order_num y) as D.
  { intros x y [Rx _] [Ry _] N. unfold compare_ordered_files.
    destruct (Z.eqb_spec (order_num x) (order_num y)) as [E|_]; [contradiction|].
    cbn [negb]. apply wrap_int_id. unfold INT_MIN, INT_MAX in *. lia. }
  assert (forall x y, order_num x = order_num y ->
            compare_ordered_files x y = strcmp (name x) (name y)) as S.
  { intros x y E. unfold compare_ordered_files. rewrite E, Z.eqb_refl. reflexivity. }
  assert (compare_ordered_files b a = - compare_ordered_files a b) as Opp.
  { destruct (Z.eq_dec (order_num a) (order_num b)) as [E|N].
    - rewrite (S a b E), (S b a (eq_sym E)). apply strcmp_opp.
    - rewrite (D a b Ha Hb N), (D b a Hb Ha) by congruence. lia. }
  split; [exact Opp|]. split; [|split].
  - intros Z0. destruct (Z.eq_dec (order_num a) (order_num b)) as [E|N].
    + split; [exact E|]. rewrite (S a b E) in Z0.
      apply strcmp_eq; [apply Ha | apply Hb | exact Z0].
    + rewrite (D a b Ha Hb N) in Z0. lia.
  - intros L1 L2.
    apply (compare_ordered_files_le lo hi span a c Ha Hc).
    apply (key_le_trans lo hi a b c Ha Hb Hc).
    + now apply (compare_ordered_files_le lo hi span a b Ha Hb).
    + now apply (compare_ordered_files_le lo hi span b c Hb Hc).
  - rewrite Opp. lia.
Qed.

Lemma compare_ordered_files_total_order_witness :
  compare_ordered_files (mkFileEntry "ordered.7.b" 7 11) (mkFileEntry "ordered.2.a" 2 11)
  = - compare_ordered_files (mkFileEntry "ordered.2.a" 2 11) (mkFileEntry "ordered.7.b" 7 11).
Proof.
  apply (compare_ordered_files_total_order 0 INT_MAX
           (mkFileEntry "ordered.2.a" 2 11) (mkFileEntry "ordered.7.b" 7 11)
           (mkFileEntry "ordered.7.c" 7 11)).
  - unfold INT_MAX. lia.
  - split; [simpl; unfold INT_MAX; lia | reflexivity].
  - split; [simpl; unfold INT_MAX; lia | reflexivity].
  - split; [simpl; unfold INT_MAX; lia | reflexivity].
Defined.

(** ** wal_stricmp *)

Lemma fold_case_lower c : fold_case (code c) = code (lower c).
Proof. destruct c as [[] [] [] [] [] [] [] []]; reflexivity. Qed.

Lemma lower_nonzero c : code c <> 0 -> code (lower c) <> 0.
Proof. destruct c as [[] [] [] [] [] [] [] []]; vm_compute; congruence. Qed.

Lemma verdict_opp x y : verdict y x = - verdict x y.
Proof.
  unfold verdict.
  destruct (Z.eqb_spec x y), (Z.eqb_spec y x), (Z.ltb_spec x y), (Z.ltb_spec y x); lia.
Qed.

Lemma verdict_range x y : verdict x y = -1 \/ verdict x y = 0 \/ verdict x y = 1.
Proof. unfold verdict. destruct (x =? y), (x <? y); auto. Qed.

Lemma wal_stricmp_opp a : forall b, wal_stricmp b a = - wal_stricmp a b.
Proof.
  induction a as [|ca a IH]; intros [|cb b]; simpl; try reflexivity;
    try apply verdict_opp.
  rewrite (Z.eqb_sym (fold_case (code cb)) (fold_case (code ca))).
  destruct (Z.eqb_spec (fold_case (code ca)) (fold_case (code cb))) as [E|N]; simpl.
  - rewrite E. destruct (fold_case (code cb) =? 0); simpl;
      [apply verdict_opp | apply IH].
  - apply verdict_opp.
Qed.

Lemma wal_stricmp_range a : forall b,
  wal_stricmp a b = -1 \/ wal_stricmp a b = 0 \/ wal_stricmp a b = 1.
Proof.
  induction a as [|ca a IH]; intros [|cb b]; simpl; auto using verdict_range.
  destruct ((fold_case (code ca) =? fold_case (code cb))
            && negb (fold_case (code ca) =? 0)); auto using verdict_range.
Qed.

Lemma wal_stricmp_zero a : forall b,
  no_nul a = true -> no_nul b = true ->
  (wal_stricmp a b = 0 <-> lower_case a = lower_case b).
Proof.
  induction a as [|ca a IH]; intros [|cb b] Na Nb; simpl in *.
  - tauto.
  - apply andb_prop in Nb as [Hc _]. apply negb_true_iff, Z.eqb_neq in Hc.
    split; [|discriminate]. intros V. apply verdict_zero in V.
    rewrite fold_case_lower in V. apply lower_nonzero in Hc.
    unfold fold_case, toupper, tolower in V. simpl in V. lia.
  - apply andb_prop in Na as [Hc _]. apply negb_true_iff, Z.eqb_neq in Hc.
    split; [|discriminate]. intros V. apply verdict_zero in V.
    rewrite fold_case_lower in V. apply lower_nonzero in Hc.
    unfold fold_case, toupper, tolower in V. simpl in V. lia.
  - apply andb_prop in Na as [Ha Na]. apply andb_prop in Nb as [Hb Nb].
    apply negb_true_iff, Z.eqb_neq in Ha, Hb.
    rewrite !fold_case_lower.
    destruct (Z.eqb_spec (code (lower ca)) (code (lower cb))) as [E|N].
    + apply lower_nonzero in Ha.
      destruct (Z.eqb_spec (code (lower ca)) 0) as [Z0|_]; [contradiction|].
      simpl. rewrite (IH b Na Nb). apply code_inj in E. rewrite E.
      split; [intros ->; reflexivity | intros H; now injection H].
    + simpl. split.
      * intros V. apply verdict_zero in V. contradiction.
      * intros H. injection H as H _. now rewrite H in N.
Qed.

(** X4.  [wal_stricmp] returns -1, 0 or 1 and swapping its arguments
    negates the result; on C strings it returns 0 exactly when the two
    are equal once the ASCII upper-case letters are put in lower case,
    so every spelling of a flag in mixed case is that flag. *)
Theorem wal_stricmp_case_insensitive :
  (forall a b,
     (wal_stricmp a b = -1 \/ wal_stricmp a b = 0 \/ wal_stricmp a b = 1)
     /\ wal_stricmp b a = - wal_stricmp a b)
  /\ (forall a b,
        no_nul a = true -> no_nul b = true ->
        (wal_stricmp a b = 0 <-> lower_case a = lower_case b)).
Proof.
  split.
  - intros a b. split; [apply wal_stricmp_range | apply wal_stricmp_opp].
  - intros a b. apply wal_stricmp_zero.
Qed.

Lemma wal_stricmp_case_insensitive_witness :
  wal_stricmp "--Bundle" "--bundle" = 0 <-> lower_case "--Bundle" = lower_case "--bundle".
Proof.
  apply (proj2 wal_stricmp_case_insensitive "--Bundle" "--bundle"); reflexivity.
Defined.

(** ** What the scan keeps *)

(** X5.  Which directory entries the scan skips: exactly [.], [..] and
    the names that begin with [skip.], in that spelling.  A hidden
    file, a name that begins with [Skip.] and one that holds [skip.]
    further on are scanned like any other. *)
Theorem skipped_names (d : string) :
  no_nul d = true ->
  (skipped d = true <-> d = "." \/ d = ".." \/ exists r, d = "skip." ++ r).
Proof.
  intros N. unfold skipped. split.
  - intros H. apply orb_prop in H as [H|H]; [apply orb_prop in H as [H|H]|].
    + left. apply Z.eqb_eq in H. now apply strcmp_eq.
    + right. left. apply Z.eqb_eq in H. now apply strcmp_eq.
    + right. right. apply Z.eqb_eq in H.
      apply (strncmp_prefix_inv "skip." d); [reflexivity | exact H].
  - intros [->|[->|[r ->]]]; [reflexivity | reflexivity |].
    apply orb_true_intro. right. apply Z.eqb_eq.
    apply (strncmp_prefix "skip." r).
Qed.

Lemma skipped_names_witness :
  skipped ".zshrc" = true
  <-> ".zshrc" = "." \/ ".zshrc" = ".." \/ exists r, ".zshrc" = "skip." ++ r.
Proof. apply (skipped_names ".zshrc"). reflexivity. Defined.

Lemma skipped_strncpy d : skipped (strncpy d 255) = skipped d.
Proof.
  unfold skipped.
  destruct d as [|c1 [|c2 [|c3 [|c4 [|c5 [|c6 r]]]]]]; reflexivity.
Qed.

Lemma strncpy_length s : forall n, (String.length (strncpy s n) <= n)%nat.
Proof.
  induction s as [|c s IH]; intros [|n]; simpl; try lia.
  specialize (IH n). lia.
Qed.

Lemma strncpy_prefix s : forall n, exists r, s = strncpy s n ++ r.
Proof.
  induction s as [|c s IH]; intros [|n]; simpl; try (eexists; reflexivity).
  destruct (IH n) as [r E]. exists r. now rewrite <- E.
Qed.

Lemma In_firstn {A} (n : nat) (x : A) : forall l, In x (firstn n l) -> In x l.
Proof.
  induction n as [|n IH]; intros [|y l]; simpl; try tauto.
  intros [H|H]; [now left | right; now apply IH].
Qed.

(** X6.  What the three arrays hold after the scan.  Every stored
    entry was made from a directory entry that is not skipped and that
    [categorize] sends to this array; its name is the first 255 bytes
    of that entry's name and is itself not a skipped name; its
    [bytesize] is the length of the stored name; its order number is
    between -1 and [INT_MAX].  And every entry that is not skipped is
    stored in its array as long as fewer than [MAX_FILES] are sent
    there. *)
Theorem stored_entries (c : Z) (b : Bucket) (entries : list string) :
  (forall e, In e (array_of b (scan c entries)) ->
     exists d,
       In d entries /\ skipped d = false
       /\ categorize c (extract_order_number d) = b
       /\ e = new_entry d
       /\ (exists r, d = name e ++ r)
       /\ (String.length (name e) <= 255)%nat
       /\ skipped (name e) = false
       /\ bytesize e = strlen (name e)
       /\ order_num e = extract_order_number d
       /\ -1 <= order_num e <= INT_MAX)
  /\ (forall d, In d entries -> routed c b d = true ->
        (List.length (filter (routed c b) entries) <= max_files)%nat ->
        In (new_entry d) (array_of b (scan c entries))).
Proof.
  rewrite scan_array. split.
  - intros e H. apply In_firstn, in_map_iff in H as (d & <- & H).
    apply filter_In in H as [Hin R]. unfold routed in R.
    apply andb_prop in R as [S B]. apply negb_true_iff in S.
    exists d. split; [exact Hin|]. split; [exact S|]. split.
    { destruct (categorize c (extract_order_number d)), b;
        simpl in B; try discriminate; reflexivity. }
    split; [reflexivity|]. cbn [new_entry name bytesize order_num].
    change (Z.to_nat (MAX_FILENAME - 1)) with 255%nat.
    split; [apply strncpy_prefix|]. split; [apply strncpy_length|].
    split; [now rewrite skipped_strncpy|]. split; [reflexivity|].
    split; [reflexivity | apply extract_order_number_range].
  - intros d Hin R L. rewrite firstn_all2 by (rewrite length_map; exact L).
    apply in_map. apply filter_In. now split.
Qed.

Lemma stored_entries_witness :
  exists d,
    In d ["."; "skip.me"; "ordered.01.first"] /\ skipped d = false
    /\ categorize 50 (extract_order_number d) = Lower
    /\ new_entry "ordered.01.first" = new_entry d
    /\ (exists r, d = name (new_entry "ordered.01.first") ++ r)
    /\ (String.length (name (new_entry "ordered.01.first")) <= 255)%nat
    /\ skipped (name (new_entry "ordered.01.first")) = false
    /\ bytesize (new_entry "ordered.01.first")
       = strlen (name (new_entry "ordered.01.first"))
    /\ order_num (new_entry "ordered.01.first") = extract_order_number d
    /\ -1 <= order_num (new_entry "ordered.01.first") <= INT_MAX.
Proof.
  apply (proj1 (stored_entries 50 Lower ["."; "skip.me"; "ordered.01.first"])
           (new_entry "ordered.01.first")).
  vm_compute. left. reflexivity.
Defined.

(** ** The usage text *)

Lemma strrchr_bound s c : forall i, strrchr s c = Some i -> (i < String.length s)%nat.
Proof.
  induction s as [|a s IH]; simpl; intros i H; [discriminate|].
  destruct (strrchr s c) as [j|].
  - injection H as <-. specialize (IH j eq_refl). lia.
  - destruct (code a =? c); [injection H as <-; lia | discriminate].
Qed.

Lemma strrchr_free j s : free_of j s = true -> strrchr s (code j) = None.
Proof.
  unfold free_of. induction s as [|a s IH]; simpl; intros H; [reflexivity|].
  apply andb_prop in H as [Ha Hs]. apply negb_true_iff in Ha.
  now rewrite (IH Hs), Ha.
Qed.

(** The last occurrence is the one after which the byte is absent. *)
Lemma strrchr_last j d base :
  free_of j base = true ->
  strrchr (d ++ String j base) (code j) = Some (String.length d).
Proof.
  intros F. induction d as [|a d IH]; simpl.
  - now rewrite (strrchr_free j base F), Z.eqb_refl.
  - now rewrite IH.
Qed.

(** Past the last occurrence of one byte, the other one is looked for
    in what comes before. *)
Lemma strrchr_before j x d base :
  free_of j base = true -> code x <> code j ->
  strrchr (d ++ String x base) (code j) = strrchr d (code j).
Proof.
  intros F N. induction d as [|a d IH]; simpl.
  - rewrite (strrchr_free j base F).
    destruct (Z.eqb_spec (code x) (code j)); [contradiction | reflexivity].
  - now rewrite IH.
Qed.

Lemma advance_past d x base :
  advance (S (String.length d)) (d ++ String x base) = base.
Proof. induction d as [|a d IH]; simpl; [now destruct base | exact IH]. Qed.

Lemma find_last_path_separator_free s :
  free_of "/" s = true -> free_of "\" s = true -> find_last_path_separator s = None.
Proof.
  intros F B. unfold find_last_path_separator.
  change 47 with (code "/"). change 92 with (code "\").
  now rewrite (strrchr_free _ _ F), (strrchr_free _ _ B).
Qed.

Lemma find_last_path_separator_last d x base :
  x = "/"%char \/ x = "\"%char ->
  free_of "/" base = true -> free_of "\" base = true ->
  find_last_path_separator (d ++ String x base) = Some (String.length d).
Proof.
  intros X F B. unfold find_last_path_separator.
  change 47 with (code "/"). change 92 with (code "\").
  destruct X as [-> | ->].
  - rewrite (strrchr_last _ _ _ F), (strrchr_before "\" "/" d base B)
      by (vm_compute; discriminate).
    destruct (strrchr d (code "\")) as [i|] eqn:E; [|reflexivity].
    apply strrchr_bound in E. apply Nat.ltb_lt in E. now rewrite E.
  - rewrite (strrchr_last _ _ _ B), (strrchr_before "/" "\" d base F)
      by (vm_compute; discriminate).
    destruct (strrchr d (code "/")) as [i|] eqn:E; [|reflexivity].
    apply strrchr_bound in E.
    destruct (Nat.ltb_spec (String.length d) i) as [L|_]; [lia | reflexivity].
Qed.

(** X7.  Run without a directory, the program writes the usage text to
    standard error, nothing to standard output, opens nothing and exits
    with status 1.  The name it shows is the part of [argv[0]] after the
    last [/] or [\], whichever comes later, or all of it when it holds
    neither. *)
Theorem usage_names_program (fuel : nat) (env : Env) (dir base : string) :
  free_of "/" base = true -> free_of "\" base = true ->
  run fuel env base [] = ([Stderr (usage_text base)], Exit EXIT_FAILURE)
  /\ run fuel env (dir ++ "/" ++ base) []
     = ([Stderr (usage_text base)], Exit EXIT_FAILURE)
  /\ run fuel env (dir ++ "\" ++ base) []
     = ([Stderr (usage_text base)], Exit EXIT_FAILURE).
Proof.
  intros F B. unfold run, main, main_with, bind, print_usage, emit, halt. cbn [trace app].
  rewrite (find_last_path_separator_free base F B).
  change (dir ++ "/" ++ base) with (dir ++ String "/" base).
  change (dir ++ "\" ++ base) with (dir ++ String "\" base).
  rewrite !find_last_path_separator_last, !advance_past by auto.
  auto.
Qed.

Lemma usage_names_program_witness :
  run 0 quiet_env "scriptsort" [] = ([Stderr (usage_text "scriptsort")], Exit EXIT_FAILURE)
  /\ run 0 quiet_env ("/usr/local\bin" ++ "/" ++ "scriptsort") []
     = ([Stderr (usage_text "scriptsort")], Exit EXIT_FAILURE)
  /\ run 0 quiet_env ("/usr/local\bin" ++ "\" ++ "scriptsort") []
     = ([Stderr (usage_text "scriptsort")], Exit EXIT_FAILURE).
Proof.
  apply (usage_names_program 0 quiet_env "/usr/local\bin" "scriptsort"); reflexivity.
Defined.

(** ** The directory that does not open *)

(** X8.  When [opendir] fails, whatever the flags: either a [--cutoff]
    value was rejected before the directory was tried, or the run
    consists of the attempt, one line on standard error naming the
    directory and the reason, and exit status 1; nothing is written to
    standard output for the directory. *)
Theorem opendir_failure (fuel : nat) (env : Env) (prog d : string)
    (flags : list string) (reason : string) :
  opendir env d = inl reason ->
  run fuel env prog (d :: flags)
  = ([OpenDir d;
      Stderr ("Error opening directory '" ++ d ++ "': " ++ reason ++ nl)],
     Exit EXIT_FAILURE)
  \/ run fuel env prog (d :: flags) = (cutoff_error, Exit 1).
Proof.
  intros O.
  destruct (parse_flags_outcome (List.length flags) flags default_options
              (mkWorld [] 0) (le_n _)) as [[o P]|P]; [left | right];
    unfold run, main, main_with; unfold bind at 1; rewrite P.
  - unfold bind, emit, halt. rewrite O. reflexivity.
  - reflexivity.
Qed.

Lemma opendir_failure_witness :
  run 0 missing_env "scriptsort" ["nowhere"; "--init"]
  = ([OpenDir "nowhere";
      Stderr ("Error opening directory '" ++ "nowhere" ++ "': "
              ++ "No such file or directory" ++ nl)],
     Exit EXIT_FAILURE)
  \/ run 0 missing_env "scriptsort" ["nowhere"; "--init"] = (cutoff_error, Exit 1).
Proof.
  apply (opendir_failure 0 missing_env "scriptsort" "nowhere" ["--init"]
           "No such file or directory").
  reflexivity.
Defined.

(** ** The three switches *)

Lemma flags_exclusive a :
  (is_init a = true -> is_bundle a = false /\ is_debug a = false)
  /\ (is_bundle a = true -> is_debug a = false).
Proof.
  unfold is_init, is_bundle, is_debug.
  assert (forall b b', wal_stricmp a b = 0 -> folded b <> folded b' ->
                       Forall (fun z => z <> 0) (folded b) ->
                       Forall (fun z => z <> 0) (folded b') ->
                       (wal_stricmp a b' =? 0) = false) as K.
  { intros b b' H D N N'. apply Z.eqb_neq. intros H'. apply D.
    now apply (wal_stricmp_same_flag a). }
  split.
  - intros H. apply Z.eqb_eq in H.
    split; apply (K "--init"); try exact H; try discriminate;
      repeat constructor; discriminate.
  - intros H. apply Z.eqb_eq in H.
    apply (K "--bundle"); try exact H; try discriminate;
      repeat constructor; discriminate.
Qed.

(** Switches already on stay on, and do not change what the loop does
    with the arguments. *)
Lemma parse_flags_with (i b g : bool) n : forall args o w,
  (List.length args <= n)%nat ->
  parse_flags args (with_flags i b g o) w
  = step_map (with_flags i b g) (parse_flags args o w).
Proof.
  induction n as [|n IH]; intros [|a rest] o w L; simpl in L;
    try reflexivity; try lia.
  rewrite !parse_flags_step.
  destruct (is_init a).
  { rewrite <- IH by lia. reflexivity. }
  destruct (is_bundle a).
  { rewrite <- IH by lia. reflexivity. }
  destruct (is_debug a).
  { rewrite <- IH by lia. reflexivity. }
  destruct (is_cutoff a); [|apply IH; lia].
  destruct rest as [|value rest']; [reflexivity|].
  destruct (atoi value <=? 0); [reflexivity|].
  simpl in L. rewrite <- IH by lia. reflexivity.
Qed.

(** Without [--cutoff] the loop only collects the switches. *)
Lemma parse_flags_switches args : forall o w,
  Forall (fun a => is_cutoff a = false) args ->
  parse_flags args o w
  = Next (with_flags (existsb is_init args) (existsb is_bundle args)
            (existsb is_debug args) o) w.
Proof.
  induction args as [|a rest IH]; intros o w F.
  - unfold with_flags. simpl. rewrite !orb_false_r. now destruct o.
  - inversion F as [|? ? Ca Fr]; subst. rewrite parse_flags_step, Ca.
    destruct (flags_exclusive a) as [XI XB].
    simpl existsb.
    destruct (is_init a) eqn:I.
    { destruct (XI eq_refl) as [-> ->]. rewrite IH by exact Fr.
      unfold with_flags. simpl. now rewrite !orb_true_r. }
    destruct (is_bundle a) eqn:B.
    { rewrite (XB eq_refl). rewrite IH by exact Fr.
      unfold with_flags. simpl. now rewrite !orb_true_r. }
    destruct (is_debug a) eqn:D.
    { rewrite IH by exact Fr.
      unfold with_flags. simpl. now rewrite !orb_true_r. }
    now rewrite IH by exact Fr.
Qed.

Lemma existsb_same {A} (f : A -> bool) (l l' : list A) :
  (forall a, In a l <-> In a l') -> existsb f l = existsb f l'.
Proof.
  intros H. apply eq_true_iff_eq. rewrite !existsb_exists.
  split; intros (x & Hx & Fx); exists x; (split; [now apply H | exact Fx]).
Qed.

(** X9.  Arguments among which none matches [--cutoff] act as a set:
    the options are the defaults with each of [--init], [--bundle] and
    [--debug] turned on exactly when some argument matches it, so two
    argument lists with the same elements, in any order and with any
    repetitions, give the same run. *)
Theorem flags_as_a_set (fuel : nat) (env : Env) (prog d : string)
    (args args' : list string) :
  Forall (fun a => is_cutoff a = false) args ->
  (forall a, In a args <-> In a args') ->
  (forall w,
     parse_flags args default_options w
     = Next (mkOptions 50 (existsb is_init args) (existsb is_bundle args)
               (existsb is_debug args)) w)
  /\ run fuel env prog (d :: args) = run fuel env prog (d :: args').
Proof.
  intros F S.
  assert (Forall (fun a => is_cutoff a = false) args') as F'.
  { apply Forall_forall. intros a Ha. apply S in Ha.
    now apply (proj1 (Forall_forall _ _) F). }
  split.
  - intros w. now rewrite parse_flags_switches.
  - apply run_parse_flags. rewrite !parse_flags_switches by assumption.
    now rewrite (existsb_same is_init _ _ S), (existsb_same is_bundle _ _ S),
      (existsb_same is_debug _ _ S).
Qed.

Lemma flags_as_a_set_witness :
  run 64 quiet_env "scriptsort" ["d"; "--debug"; "--INIT"; "-v"]
  = run 64 quiet_env "scriptsort" ["d"; "-v"; "--INIT"; "--debug"; "--INIT"].
Proof.
  apply (flags_as_a_set 64 quiet_env "scriptsort" "d"
           ["--debug"; "--INIT"; "-v"] ["-v"; "--INIT"; "--debug"; "--INIT"]).
  - repeat constructor.
  - intros a. simpl. tauto.
Defined.

Lemma main_after_flags (fuel : nat) env prog d flags w :
  main fuel env prog (d :: flags) w
  = match parse_flags flags default_options w with
    | Next o w' => after_flags fuel env d o w'
    | Halt r w' => Halt r w'
    end.
Proof. reflexivity. Qed.

Lemma bundle_mode_switches (fuel : nat) env d o o' lower unordered upper :
  debugtext o = debugtext o' ->
  bundle_mode fuel env d o lower unordered upper
  = bundle_mode fuel env d o' lower unordered upper.
Proof. intros H. unfold bundle_mode. now rewrite H. Qed.

(** What a switch found between [pre] and [suffix] does to the options. *)
Lemma parse_flags_insert (i b g : bool) pre x suffix w :
  flag_boundary pre = true ->
  (forall rest o w', parse_flags (x :: rest) o w'
                     = parse_flags rest (with_flags i b g o) w') ->
  parse_flags (pre ++ x :: suffix) default_options w
  = step_map (with_flags i b g) (parse_flags (pre ++ suffix) default_options w).
Proof.
  intros Fb X.
  rewrite (parse_flags_app (List.length pre) pre (x :: suffix)) by auto.
  rewrite (parse_flags_app (List.length pre) pre suffix) by auto.
  destruct (parse_flags pre default_options w) as [o1 w1|r w1]; [|reflexivity].
  rewrite X. apply (parse_flags_with i b g (List.length suffix)). lia.
Qed.

Lemma with_init_step x rest o w :
  is_init x = true ->
  parse_flags (x :: rest) o w = parse_flags rest (with_flags true false false o) w.
Proof.
  intros I. rewrite parse_flags_step, I. unfold with_flags.
  now rewrite orb_true_r, !orb_false_r.
Qed.

Lemma with_debug_step x rest o w :
  is_debug x = true ->
  parse_flags (x :: rest) o w = parse_flags rest (with_flags false false true o) w.
Proof.
  intros D. rewrite parse_flags_step, D.
  destruct (is_init x) eqn:I.
  { destruct (proj1 (flags_exclusive x) I) as [_ N]. congruence. }
  destruct (is_bundle x) eqn:B.
  { pose proof (proj2 (flags_exclusive x) B). congruence. }
  unfold with_flags. now rewrite orb_true_r, !orb_false_r.
Qed.

(** X10.  [--bundle] wins over [--init]: when the arguments select
    bundle mode, an [--init] added in any flag position changes nothing
    of the run. *)
Theorem bundle_overrides_init (fuel : nat) (env : Env) (prog d : string)
    (pre : list string) (x : string) (suffix : list string) (o : Options) :
  flag_boundary pre = true -> is_init x = true ->
  parse_flags (pre ++ suffix) default_options (mkWorld [] 0) = Next o (mkWorld [] 0) ->
  bundle o = true ->
  run fuel env prog (d :: pre ++ x :: suffix) = run fuel env prog (d :: pre ++ suffix).
Proof.
  intros Fb I P B. unfold run. rewrite !main_after_flags.
  rewrite (parse_flags_insert true false false pre x suffix) by
    (auto; intros; now apply with_init_step).
  rewrite P. cbn [step_map].
  replace (after_flags fuel env d (with_flags true false false o))
    with (after_flags fuel env d o); [reflexivity|].
  unfold after_flags. destruct (opendir env d) as [reason|entries]; [reflexivity|].
  cbn [with_flags bundle cutoff_count]. rewrite B. cbn [orb].
  rewrite (bundle_mode_switches fuel env d o (with_flags true false false o))
    by (simpl; now rewrite orb_false_r).
  reflexivity.
Qed.

Lemma bundle_overrides_init_witness :
  run 64 quiet_env "scriptsort" ("d" :: ["--bundle"] ++ "--init" :: ["--debug"])
  = run 64 quiet_env "scriptsort" ("d" :: ["--bundle"] ++ ["--debug"]).
Proof.
  apply (bundle_overrides_init 64 quiet_env "scriptsort" "d" ["--bundle"] "--init"
           ["--debug"] (mkOptions 50 false true true)); reflexivity.
Defined.

(** X11.  [--debug] matters only to the script of [--init] and to the
    bundle: when the arguments select the plain list, a [--debug] added
    in any flag position changes nothing of the run. *)
Theorem debug_ignored_in_list_mode (fuel : nat) (env : Env) (prog d : string)
    (pre : list string) (x : string) (suffix : list string) (o : Options) :
  flag_boundary pre = true -> is_debug x = true ->
  parse_flags (pre ++ suffix) default_options (mkWorld [] 0) = Next o (mkWorld [] 0) ->
  bundle o = false -> init o = false ->
  run fuel env prog (d :: pre ++ x :: suffix) = run fuel env prog (d :: pre ++ suffix).
Proof.
  intros Fb D P B I. unfold run. rewrite !main_after_flags.
  rewrite (parse_flags_insert false false true pre x suffix) by
    (auto; intros; now apply with_debug_step).
  rewrite P. cbn [step_map].
  replace (after_flags fuel env d (with_flags false false true o))
    with (after_flags fuel env d o); [reflexivity|].
  unfold after_flags. destruct (opendir env d) as [reason|entries]; [reflexivity|].
  cbn [with_flags bundle cutoff_count]. rewrite B. cbn [orb].
  unfold list_mode, list_mode_with, list_stdout. cbn [with_flags init]. rewrite I. reflexivity.
Qed.

Lemma debug_ignored_in_list_mode_witness :
  run 64 quiet_env "scriptsort" ("d" :: ["--cutoff"; "10"] ++ "--debug" :: ["-q"])
  = run 64 quiet_env "scriptsort" ("d" :: ["--cutoff"; "10"] ++ ["-q"]).
Proof.
  apply (debug_ignored_in_list_mode 64 quiet_env "scriptsort" "d" ["--cutoff"; "10"]
           "--debug" ["-q"] (mkOptions 10 false false false)); reflexivity.
Defined.

(** ** The size of the list buffer *)

Lemma wrap_int_add_l a b : wrap_int (wrap_int a + b) = wrap_int (a + b).
Proof.
  unfold wrap_int.
  replace ((a + 2147483648) mod 4294967296 - 2147483648 + b + 2147483648)
    with ((a + 2147483648) mod 4294967296 + b) by lia.
  rewrite Z.add_mod_idemp_l by lia.
  replace (a + 2147483648 + b) with (a + b + 2147483648) by lia.
  reflexivity.
Qed.

Lemma room_cons e l : room (e :: l) = strlen (name e) + 2 + room l.
Proof. reflexivity. Qed.

Lemma room_app l1 l2 : room (l1 ++ l2) = room l1 + room l2.
Proof. induction l1 as [|e l1 IH]; simpl; [reflexivity | rewrite IH; lia]. Qed.

Lemma room_nonneg l : 0 <= room l.
Proof. induction l as [|e l IH]; simpl; unfold strlen; lia. Qed.

Lemma room_perm l l' : Permutation l l' -> room l = room l'.
Proof. induction 1; simpl; lia. Qed.

Lemma room_firstn n : forall l, room (firstn n l) <= room l.
Proof.
  induction n as [|n IH]; intros l.
  - apply room_nonneg.
  - destruct l as [|e l]; [apply Z.le_refl|].
    cbn [firstn room fold_right]. fold (room (firstn n l)). fold (room l).
    specialize (IH l). lia.
Qed.

(** Every entry that is not skipped is sent to exactly one array. *)
Lemma room_routed c entries :
  room (map new_entry (filter (routed c Lower) entries))
  + room (map new_entry (filter (routed c Unordered) entries))
  + room (map new_entry (filter (routed c Upper) entries))
  = footprint (non_skipped entries).
Proof.
  unfold footprint, non_skipped, routed.
  induction entries as [|d entries IH]; [reflexivity|].
  cbn [filter]. destruct (skipped d); cbn [negb andb]; [exact IH|].
  destruct (categorize c (extract_order_number d)); cbn [bucket_eqb map];
    rewrite !room_cons; lia.
Qed.

Lemma total_bytesize_fold c entries : forall st,
  INT_MIN <= total_bytesize st <= INT_MAX ->
  total_bytesize (fold_left (scan_step c) entries st)
  = wrap_int (total_bytesize st + footprint (non_skipped entries)).
Proof.
  unfold footprint, non_skipped.
  induction entries as [|d entries IH]; intros st R; cbn [fold_left filter].
  - simpl. rewrite Z.add_0_r. symmetry. now apply wrap_int_id.
  - unfold scan_step at 2. destruct (skipped d); cbn [negb]; [now apply IH|].
    assert (forall st', total_bytesize st'
                        = wrap_int (total_bytesize st + bytesize (new_entry d) + 2) ->
              total_bytesize (fold_left (scan_step c) entries st')
              = wrap_int (total_bytesize st
                          + room (map new_entry
                                    (d :: filter (fun d0 => negb (skipped d0)) entries))))
      as K.
    { intros st' E. rewrite IH by (rewrite E; apply wrap_int_range).
      rewrite E, wrap_int_add_l. f_equal. cbn [map room fold_right new_entry bytesize name].
      fold (room (map new_entry (filter (fun d0 => negb (skipped d0)) entries))).
      lia. }
    destruct (categorize c (order_num (new_entry d))); apply K; reflexivity.
Qed.

Lemma append_names_length j files : forall buf,
  strlen (append_names j files buf) + Z.of_nat (List.length files)
  = strlen buf + room files.
Proof.
  unfold append_names.
  induction files as [|f files IH]; intros buf; cbn [fold_left List.length room fold_right].
  - lia.
  - fold (room files). rewrite Nat2Z.inj_succ.
    specialize (IH (buf ++ name f ++ chr j)).
    rewrite !strlen_append in IH. change (strlen (chr j)) with 1 in IH. lia.
Qed.

(** X12.  The buffer of list mode.  The size asked of [calloc] is the
    sum, in [int] arithmetic, over the entries that are not skipped, of
    the length of the stored name and 2.  When that sum fits an [int],
    the text the three loops build and one more byte for each name in
    it (so the terminator, too, as soon as there is a name) fit the
    buffer.  For a directory with nothing to list the size asked for
    is 0 and the text is empty. *)
Theorem list_buffer_room (c : Z) (joiner : ascii) (entries : list string) :
  let st := scan c entries in
  let lower := qsort compare_ordered_files (lower_files st) in
  let unordered := qsort compare_unordered (unordered_files st) in
  let upper := qsort compare_ordered_files (upper_files st) in
  let text :=
    append_names joiner upper (append_names joiner unordered
                                 (append_names joiner lower "")) in
  total_bytesize st = wrap_int (footprint (non_skipped entries))
  /\ (footprint (non_skipped entries) <= INT_MAX ->
      strlen text + Z.of_nat (List.length (lower ++ unordered ++ upper))
      <= total_bytesize st)
  /\ (non_skipped entries = [] -> total_bytesize st = 0 /\ text = "").
Proof.
  intros st lower unordered upper text.
  assert (total_bytesize st = wrap_int (footprint (non_skipped entries))) as T.
  { unfold st, scan. rewrite total_bytesize_fold; [reflexivity|].
    unfold scan_init, INT_MIN, INT_MAX. simpl. lia. }
  assert (strlen text + Z.of_nat (List.length (lower ++ unordered ++ upper))
          = room (lower_files st) + room (unordered_files st) + room (upper_files st))
    as L.
  { pose proof (append_names_length joiner lower "") as A1.
    pose proof (append_names_length joiner unordered (append_names joiner lower "")) as A2.
    pose proof (append_names_length joiner upper
                  (append_names joiner unordered (append_names joiner lower ""))) as A3.
    change (strlen "") with 0 in A1.
    rewrite !length_app, !Nat2Z.inj_add.
    rewrite <- (room_perm _ _ (qsort_perm compare_ordered_files (lower_files st))).
    rewrite <- (room_perm _ _ (qsort_perm compare_unordered (unordered_files st))).
    rewrite <- (room_perm _ _ (qsort_perm compare_ordered_files (upper_files st))).
    fold lower unordered upper. unfold text. lia. }
  split; [exact T|]. split.
  - intros Fit. rewrite L, T.
    pose proof (room_nonneg (map new_entry (non_skipped entries))) as P.
    fold (footprint (non_skipped entries)) in P.
    rewrite wrap_int_id by (unfold INT_MIN; lia).
    rewrite <- (room_routed c entries).
    change (lower_files st) with (array_of Lower (scan c entries)).
    change (unordered_files st) with (array_of Unordered (scan c entries)).
    change (upper_files st) with (array_of Upper (scan c entries)).
    rewrite !scan_array.
    pose proof (room_firstn max_files (map new_entry (filter (routed c Lower) entries))).
    pose proof (room_firstn max_files (map new_entry (filter (routed c Unordered) entries))).
    pose proof (room_firstn max_files (map new_entry (filter (routed c Upper) entries))).
    lia.
  - intros E. rewrite T, E. split; [reflexivity|].
    assert (forall b, array_of b (scan c entries) = []) as Z0.
    { intros b. rewrite scan_array.
      replace (filter (routed c b) entries) with (@nil string);
        [now rewrite firstn_nil|].
      symmetry. unfold non_skipped in E. unfold routed.
      clear -E. induction entries as [|d entries IH]; [reflexivity|].
      simpl in *. destruct (skipped d); simpl in *; [now apply IH | discriminate]. }
    unfold text, upper, unordered, lower, st.
    change (lower_files (scan c entries)) with (array_of Lower (scan c entries)).
    change (unordered_files (scan c entries)) with (array_of Unordered (scan c entries)).
    change (upper_files (scan c entries)) with (array_of Upper (scan c entries)).
    rewrite !Z0. reflexivity.
Qed.

Lemma list_buffer_room_witness :
  strlen (append_names LF
            (qsort compare_ordered_files (upper_files (scan 50 usage_example)))
            (append_names LF
               (qsort compare_unordered (unordered_files (scan 50 usage_example)))
               (append_names LF
                  (qsort compare_ordered_files (lower_files (scan 50 usage_example)))
                  "")))
  + Z.of_nat (List.length
                (qsort compare_ordered_files (lower_files (scan 50 usage_example))
                 ++ qsort compare_unordered (unordered_files (scan 50 usage_example))
                 ++ qsort compare_ordered_files (upper_files (scan 50 usage_example))))
  <= total_bytesize (scan 50 usage_example).
Proof.
  apply (proj1 (proj2 (list_buffer_room 50 LF usage_example))).
  vm_compute. discriminate.
Defined.

(** ** Bundle mode when the files hold zero bytes *)






















(** ** The order in which readdir yields the entries *)

Lemma no_nul_strncpy s : forall n, no_nul s = true -> no_nul (strncpy s n) = true.
Proof.
  induction s as [|c s IH]; intros [|n] H; simpl in *; try reflexivity.
  apply andb_prop in H as [Hc Hs]. now rewrite Hc, IH.
Qed.

Lemma sorted_arrays_same (lo hi : Z) (c : Z) (b : Bucket) (entries entries' : list string) :
  hi - lo <= INT_MAX ->
  Permutation entries entries' ->
  Forall (fun d => no_nul d = true /\ lo <= extract_order_number d <= hi)
    (non_skipped entries) ->
  Z.of_nat (List.length (filter (routed c b) entries)) <= MAX_FILES ->
  qsort compare_ordered_files (array_of b (scan c entries'))
  = qsort compare_ordered_files (array_of b (scan c entries)).
Proof.
  intros span P N Cap.
  assert (Permutation (filter (routed c b) entries) (filter (routed c b) entries')) as PF
    by now apply Permutation_filter.
  rewrite !scan_array.
  pose proof max_files_eq as M. pose proof (Permutation_length PF) as PL.
  unfold MAX_FILES in Cap.
  rewrite (firstn_all2 (n := max_files)
             (map new_entry (filter (routed c b) entries)))
    by (rewrite length_map; lia).
  rewrite (firstn_all2 (n := max_files)
             (map new_entry (filter (routed c b) entries')))
    by (rewrite length_map; lia).
  symmetry. apply (sorted_unique lo hi).
  - apply (qsort_within lo hi). apply Forall_forall. intros e He.
    apply in_map_iff in He as (d & <- & Hd).
    apply filter_In in Hd as [Hin R]. unfold routed in R.
    apply andb_prop in R as [S _].
    assert (In d (non_skipped entries)) as Hn by (apply filter_In; now split).
    destruct (proj1 (Forall_forall _ _) N d Hn) as [Nd Rd].
    split; [exact Rd | now apply no_nul_strncpy].
  - intros e He. apply (Permutation_in _ (qsort_perm _ _)) in He.
    apply in_map_iff in He as (d & <- & _). reflexivity.
  - rewrite !qsort_perm. now apply Permutation_map.
  - apply (qsort_sorted lo hi span). apply Forall_forall. intros e He.
    apply in_map_iff in He as (d & <- & Hd).
    apply filter_In in Hd as [Hin R]. unfold routed in R.
    apply andb_prop in R as [S _].
    assert (In d (non_skipped entries)) as Hn by (apply filter_In; now split).
    destruct (proj1 (Forall_forall _ _) N d Hn) as [Nd Rd].
    split; [exact Rd | now apply no_nul_strncpy].
  - apply (qsort_sorted lo hi span). apply Forall_forall. intros e He.
    apply in_map_iff in He as (d & <- & Hd).
    apply (Permutation_in _ (Permutation_sym PF)) in Hd.
    apply filter_In in Hd as [Hin R]. unfold routed in R.
    apply andb_prop in R as [S _].
    assert (In d (non_skipped entries)) as Hn by (apply filter_In; now split).
    destruct (proj1 (Forall_forall _ _) N d Hn) as [Nd Rd].
    split; [exact Rd | now apply no_nul_strncpy].
Qed.

(** X14.  The order in which [readdir] yields the entries does not
    matter.  For names that are C strings, when no array overflows and
    the order numbers met do not span more than [INT_MAX] (none is
    [INT_MAX], or none is unordered), two listings of the same
    directory give the same three sorted arrays, the same order of
    output and the same buffer size. *)
Theorem readdir_order_irrelevant (c : Z) (entries entries' : list string) :
  Permutation entries entries' ->
  Forall (fun d => no_nul d = true) (non_skipped entries) ->
  (forall b, Z.of_nat (List.length (filter (routed c b) entries)) <= MAX_FILES) ->
  Forall (fun d => extract_order_number d < INT_MAX) (non_skipped entries)
  \/ Forall (fun d => 0 <= extract_order_number d) (non_skipped entries) ->
  (forall b, qsort compare_ordered_files (array_of b (scan c entries'))
             = qsort compare_ordered_files (array_of b (scan c entries)))
  /\ output_order c entries' = output_order c entries
  /\ total_bytesize (scan c entries') = total_bytesize (scan c entries).
Proof.
  intros P N Cap Span.
  assert (forall b, qsort compare_ordered_files (array_of b (scan c entries'))
                    = qsort compare_ordered_files (array_of b (scan c entries))) as S.
  { intros b. destruct Span as [Hi|Lo].
    - apply (sorted_arrays_same (-1) (INT_MAX - 1)); auto; [unfold INT_MAX; lia|].
      apply Forall_forall. intros d Hd. split.
      + exact (proj1 (Forall_forall _ _) N d Hd).
      + pose proof (extract_order_number_range d).
        assert (extract_order_number d < INT_MAX)
          by exact (proj1 (Forall_forall _ _) Hi d Hd).
        lia.
    - apply (sorted_arrays_same 0 INT_MAX); auto; [unfold INT_MAX; lia|].
      apply Forall_forall. intros d Hd. split.
      + exact (proj1 (Forall_forall _ _) N d Hd).
      + pose proof (extract_order_number_range d).
        assert (0 <= extract_order_number d)
          by exact (proj1 (Forall_forall _ _) Lo d Hd).
        lia. }
  split; [exact S|]. split.
  - unfold output_order.
    change compare_unordered with compare_ordered_files.
    pose proof (S Lower) as S1. pose proof (S Unordered) as S2.
    pose proof (S Upper) as S3. cbn [array_of] in S1, S2, S3.
    now rewrite S1, S2, S3.
  - unfold scan. rewrite !total_bytesize_fold
      by (unfold scan_init, INT_MIN, INT_MAX; simpl; lia).
    f_equal. f_equal. unfold footprint. apply room_perm, Permutation_map.
    apply Permutation_sym. unfold non_skipped. now apply Permutation_filter.
Qed.

Lemma readdir_order_irrelevant_witness :
  output_order 50 ["fn.a"; "ordered.01.first"] = output_order 50 ["ordered.01.first"; "fn.a"].
Proof.
  apply (readdir_order_irrelevant 50 ["ordered.01.first"; "fn.a"]
           ["fn.a"; "ordered.01.first"]).
  - apply perm_swap.
  - repeat constructor.
  - intros []; vm_compute; discriminate.
  - left. change (Forall (fun d => extract_order_number d < INT_MAX)
                    ["ordered.01.first"; "fn.a"]).
    repeat constructor.
Defined.

(** ** What the list modes leave alone *)

(** X15.  Without [--bundle] no file of the directory is opened and the
    reallocation loop is never entered: the run is the same whatever
    the files are, and whatever the bound on the loop, as long as
    [opendir] and the one allocation answer the same. *)
Theorem list_mode_reads_no_file (fuel fuel' : nat) (env env' : Env) (prog d : string)
    (flags : list string) (o : Options) :
  parse_flags flags default_options (mkWorld [] 0) = Next o (mkWorld [] 0) ->
  bundle o = false ->
  opendir env d = opendir env' d ->
  (forall n, alloc_ok env 0 n = alloc_ok env' 0 n) ->
  run fuel env prog (d :: flags) = run fuel' env' prog (d :: flags).
Proof.
  intros P B O A. unfold run. rewrite !main_after_flags, P.
  unfold after_flags. rewrite <- O, B.
  unfold bind, emit. destruct (opendir env d) as [reason|entries]; [reflexivity|].
  unfold list_mode, list_mode_with, bind, allocate. cbn [allocs]. now rewrite A.
Qed.

Lemma list_mode_reads_no_file_witness :
  run 0 quiet_env "scriptsort" ["d"; "--init"]
  = run 64 partly_readable_env "scriptsort" ["d"; "--init"].
Proof.
  apply (list_mode_reads_no_file 0 64 quiet_env partly_readable_env "scriptsort" "d"
           ["--init"] (mkOptions 50 true false false)); reflexivity.
Defined.

(** ** Failure and standard output *)

Lemma quiet_bind {A B} (m : M A) (k : A -> M B) (w : World) :
  quiet w (m w) ->
  (forall a w1, m w = Next a w1 -> quiet w1 (k a w1)) ->
  quiet w (bind m k w).
Proof.
  unfold bind. destruct (m w) as [a w1|r w1]; intros Q K; [|exact Q].
  specialize (K a w1 eq_refl). simpl in Q.
  destruct (k a w1) as [b w2|r w2]; simpl in *; [congruence|].
  destruct K as [K1 K2]. split; [congruence | exact K2].
Qed.

Lemma quiet_stderr {A} (text : string) (k : M A) (w : World) :
  (forall w1, stdout_of (trace w1) = stdout_of (trace w) -> quiet w1 (k w1)) ->
  quiet w ((emit (Stderr text) ;;; k) w).
Proof.
  intros K. apply quiet_bind.
  - simpl. rewrite stdout_of_app. simpl. apply append_nil_r.
  - intros [] w1 E. apply K. unfold emit in E. injection E as <-.
    simpl. rewrite stdout_of_app. simpl. apply append_nil_r.
Qed.

Lemma quiet_read_file_contents env d nm w : quiet w (read_file_contents env d nm w).
Proof.
  unfold read_file_contents.
  destruct (lookup_file env (file_path d nm)) as [reason|reason|st raw reason].
  - apply quiet_stderr. intros w1 _. reflexivity.
  - apply quiet_stderr. intros w1 _. reflexivity.
  - apply quiet_bind; [reflexivity|].
    intros ok w1 E. unfold allocate in E. injection E as _ <-.
    destruct (negb ok).
    + apply quiet_stderr. intros w2 _. reflexivity.
    + destruct (negb (strlen (substring 0 (Z.to_nat st) raw) =? wrap_size st)).
      * apply quiet_stderr. intros w2 _. reflexivity.
      * reflexivity.
Qed.

Lemma quiet_ensure_buffer_capacity (fuel : nat) env buf capacity needed w :
  quiet w (ensure_buffer_capacity fuel env buf capacity needed w).
Proof.
  unfold ensure_buffer_capacity. destruct (needed >? capacity); [|reflexivity].
  destruct (grow_capacity fuel capacity needed) as [nc|].
  - apply quiet_bind; [reflexivity|].
    intros ok w1 E. unfold allocate in E. injection E as _ <-.
    destruct (negb ok); [|reflexivity].
    apply quiet_stderr. intros w2 _. reflexivity.
  - simpl. auto.
Qed.

Lemma quiet_access {A B} (o : option A) (k : A -> M B) (w : World) :
  (forall a, o = Some a -> quiet w (k a w)) ->
  quiet w (bind (access o) k w).
Proof.
  intros K. destruct o as [a|]; unfold bind, access, ret, halt.
  - now apply K.
  - simpl. auto.
Qed.

Lemma quiet_append_contents (fuel : nat) env a data w :
  quiet w (append_contents fuel env a data w).
Proof.
  unfold append_contents. apply quiet_bind; [apply quiet_ensure_buffer_capacity|].
  intros [[buf|] capacity] w1 _.
  - apply quiet_access. intros b1 _. apply quiet_access. intros b2 _.
    apply quiet_access. intros b3 _. reflexivity.
  - simpl. auto.
Qed.

Lemma quiet_bundle_files (fuel : nat) env d files : forall a w,
  quiet w (bundle_files fuel env d files a w).
Proof.
  induction files as [|f rest IH]; intros a w; [reflexivity|].
  simpl bundle_files. apply quiet_bind; [apply quiet_read_file_contents|].
  intros [data|] w1 _; [|apply IH].
  apply quiet_bind; [apply quiet_append_contents|].
  intros a1 w2 _. apply IH.
Qed.

Lemma all_or_nothing_quiet {A} (m : M A) (k : A -> M Z) (w : World) :
  quiet w (m w) ->
  (forall a w1, m w = Next a w1 -> all_or_nothing w1 (k a w1)) ->
  all_or_nothing w (bind m k w).
Proof.
  unfold bind. destruct (m w) as [a w1|r w1]; intros Q K.
  - specialize (K a w1 eq_refl). simpl in Q.
    destruct (k a w1) as [z w2|r w2]; simpl in *; [exact K|].
    destruct K as [K1 K2]. split; [exact K1|]. intros E. rewrite (K2 E). exact Q.
  - destruct Q as [Q1 Q2]. simpl. split; [exact Q2 | intros _; exact Q1].
Qed.

(** Once something may have been written, all that matters is that no
    failure status follows. *)
Lemma all_or_nothing_end (w : World) (s : Step Z) :
  match s with
  | Next status _ => status = EXIT_SUCCESS
  | Halt r _ => r = Fault
  end ->
  all_or_nothing w s.
Proof.
  destruct s as [z w1|r w1]; simpl; [auto|].
  intros ->. split; [auto | discriminate].
Qed.

Lemma all_or_nothing_bundle_mode (fuel : nat) env d o lower unordered upper w :
  all_or_nothing w (bundle_mode fuel env d o lower unordered upper w).
Proof.
  unfold bundle_mode. apply all_or_nothing_quiet; [reflexivity|].
  intros ok w1 E. unfold allocate in E. injection E as _ <-.
  destruct (negb ok).
  { simpl. split; [auto|]. intros _. rewrite stdout_of_app. simpl. apply append_nil_r. }
  apply all_or_nothing_quiet.
  { destruct (write_at (malloc_cells INITIAL_BUFFER_SIZE) 0 [Byte NUL]); simpl; auto. }
  intros buf w2 _.
  apply all_or_nothing_quiet; [apply quiet_bundle_files|]. intros a1 w3 _.
  apply all_or_nothing_quiet; [apply quiet_bundle_files|]. intros a2 w4 _.
  apply all_or_nothing_quiet; [apply quiet_bundle_files|]. intros a3 w5 _.
  apply all_or_nothing_end.
  unfold bind, emit, ret, access, halt.
  destruct (debugtext o); destruct (read_c_string (buffer a3)); reflexivity.
Qed.

Lemma all_or_nothing_list_mode env d o total lower unordered upper w :
  all_or_nothing w (list_mode env d o total lower unordered upper w).
Proof.
  unfold list_mode, list_mode_with, bind, allocate, emit, halt, ret.
  destruct (alloc_ok env (allocs w) (wrap_size total)); simpl; [reflexivity|].
  split; [auto|]. intros _. rewrite stdout_of_app. simpl. apply append_nil_r.
Qed.

(** X16.  What a run that fails leaves on standard output.  The exit
    status is 0 or 1.  When it is 1, nothing was written to standard
    output (usage, a directory that does not open and every failed
    allocation are reported on standard error, before anything of the
    list or the bundle is printed), except for the two lines about a
    [--cutoff] value that is not positive, which are all the run then
    writes. *)
Theorem failure_prints_nothing (fuel : nat) (env : Env) (prog : string)
    (args : list string) :
  (forall status, snd (run fuel env prog args) = Exit status ->
                  status = EXIT_SUCCESS \/ status = EXIT_FAILURE)
  /\ (snd (run fuel env prog args) = Exit EXIT_FAILURE ->
      stdout_of (fst (run fuel env prog args)) = ""
      \/ fst (run fuel env prog args) = cutoff_error).
Proof.
  destruct args as [|d flags].
  { split; [intros status H; injection H as <-; now right | intros _; now left]. }
  unfold run. rewrite main_after_flags.
  destruct (parse_flags_outcome (List.length flags) flags default_options
              (mkWorld [] 0) (le_n _)) as [[o P]|P]; rewrite P.
  - assert (all_or_nothing (mkWorld [OpenDir d] 0)
              (after_flags fuel env d o (mkWorld [] 0))) as K.
    { unfold after_flags, bind at 1, emit at 1. cbn [trace allocs app].
      destruct (opendir env d) as [reason|entries].
      - simpl. split; [auto|]. intros _. reflexivity.
      - cbv zeta. destruct (bundle o);
          [apply all_or_nothing_bundle_mode | apply all_or_nothing_list_mode]. }
    destruct (after_flags fuel env d o (mkWorld [] 0)) as [z w1|r w1];
      simpl in K; cbn [fst snd].
    + subst z. split; [intros status H; injection H as <-; now left|].
      intros H. discriminate.
    + destruct K as [[ -> | [ -> | -> ]] K2]; split; try discriminate.
      * intros status H. injection H as <-. now right.
      * intros _. left. now rewrite K2.
  - simpl. split; [intros status H; injection H as <-; now right|].
    intros _. now right.
Qed.

Lemma failure_prints_nothing_witness :
  stdout_of (fst (run 64 exhausted_env "scriptsort" ["d"; "--bundle"])) = ""
  \/ fst (run 64 exhausted_env "scriptsort" ["d"; "--bundle"]) = cutoff_error.
Proof.
  apply (proj2 (failure_prints_nothing 64 exhausted_env "scriptsort" ["d"; "--bundle"])).
  reflexivity.
Defined.

(** ** The cutoff of every run *)

(** X17.  Whatever the arguments, when the argument loop does not end
    the run it has written nothing and the cutoff it leaves is between
    1 and [INT_MAX].  So in every run the comparison of an order number
    of -1 against the cutoff, made unsigned, sends the entry to the
    upper array: the array of unordered entries stays empty and its
    loops have nothing to go through. *)
Theorem cutoff_always_positive (args : list string) (w : World) (o : Options)
    (w' : World) :
  parse_flags args default_options w = Next o w' ->
  w' = w
  /\ 0 < cutoff_count o <= INT_MAX
  /\ (forall entries, unordered_files (scan (cutoff_count o) entries) = [])
  /\ (forall n, -1 <= n <= INT_MAX -> categorize (cutoff_count o) n <> Unordered).
Proof.
  intros P.
  assert (0 < cutoff_count o <= INT_MAX) as R.
  { apply (parse_flags_cutoff_range (List.length args) args default_options w o w');
      [apply le_n | simpl; unfold INT_MAX; lia | exact P]. }
  split.
  - destruct (parse_flags_outcome (List.length args) args default_options w (le_n _))
      as [[o1 P1]|P1]; rewrite P1 in P; [now injection P | discriminate].
  - split; [exact R|]. split.
    + intros entries. now apply unordered_files_empty.
    + intros n Hn. now apply (categorize_spec (cutoff_count o) n R Hn).
Qed.

Lemma cutoff_always_positive_witness :
  mkWorld [] 0 = mkWorld [] 0
  /\ 0 < cutoff_count (mkOptions 7 true false false) <= INT_MAX
  /\ (forall entries,
        unordered_files (scan (cutoff_count (mkOptions 7 true false false)) entries) = [])
  /\ (forall n, -1 <= n <= INT_MAX ->
        categorize (cutoff_count (mkOptions 7 true false false)) n <> Unordered).
Proof.
  apply (cutoff_always_positive ["--INIT"; "--cutoff"; "7"] (mkWorld [] 0)
           (mkOptions 7 true false false) (mkWorld [] 0)).
  reflexivity.
Defined.
